(** * agentkernel example servers (examples/c-app/server.c, server.cpp)

    A shallow embedding of the two single-connection HTTP demo servers and
    of the libc / libstdc++ calls they make, followed by the properties of
    the connection handler and of the accept loop. *)

From Stdlib Require Import ZArith Bool Lia.
From Stdlib.Strings Require Import String Byte.
From stdpp Require Import base list.
From Equations Require Import Equations.

Local Open Scope Z_scope.

(** ** Bytes and byte strings *)

Abbreviation byte := Byte.byte.

Definition NUL : byte := x00.
Definition CR : byte := x0d.
Definition LF : byte := x0a.
Definition DQUOTE : byte := x22.

(** The bytes of a string literal of the source (without its terminator). *)
Definition lit (s : string) : list byte := list_byte_of_string s.

Definition zlen (l : list byte) : Z := Z.of_nat (length l).

(** ** The C library as the two programs use it *)

Module Libc.

(** What the abstract machine does not define. *)
Inductive fault : Type :=
| OutOfBounds        (* store or load outside an array *)
| NullDereference    (* use of the null pointer returned by [gmtime] *)
| IndeterminateRead. (* read of an array a failed call left indeterminate *)

Inductive result (A : Type) : Type :=
| Done (a : A)
| Crash (f : fault).
Arguments Done {A} a.
Arguments Crash {A} f.

(** *** Arrays of char *)

(** An automatic array that was never initialised: [size] bytes of whatever
    the stack held, given by [junk]. *)
Definition uninit (junk : nat -> byte) (size : Z) : list byte :=
  map junk (seq 0 (Z.to_nat size)).

(** [data] copied to the start of [mem]. *)
Definition blit (data mem : list byte) : list byte :=
  data ++ drop (length data) mem.

(** [mem[i] = v], undefined outside the array. *)
Definition store (mem : list byte) (i : Z) (v : byte) : result (list byte) :=
  if (0 <=? i) && (i <? zlen mem)
  then Done (<[Z.to_nat i := v]> mem)
  else Crash OutOfBounds.

(** The string a [char*] into [mem] denotes: the bytes before the first
    NUL. Running off the array without meeting one is undefined. *)
Fixpoint c_str (mem : list byte) : result (list byte) :=
  match mem with
  | [] => Crash OutOfBounds
  | b :: mem' =>
      if Byte.eqb b NUL then Done []
      else match c_str mem' with
           | Done s => Done (b :: s)
           | Crash f => Crash f
           end
  end.

Definition strlen (mem : list byte) : result Z :=
  match c_str mem with
  | Done s => Done (zlen s)
  | Crash f => Crash f
  end.

(** [needle] is the start of [hay]. *)
Fixpoint starts_with (needle hay : list byte) : bool :=
  match needle, hay with
  | [], _ => true
  | _ :: _, [] => false
  | a :: needle', b :: hay' => Byte.eqb a b && starts_with needle' hay'
  end.

(** [strstr(hay, needle)] on the two strings: the offset of the first
    occurrence, [None] for the null pointer. *)
Fixpoint strstr (hay needle : list byte) : option nat :=
  if starts_with needle hay then Some 0%nat
  else match hay with
       | [] => None
       | _ :: hay' => S <$> strstr hay' needle
       end.

(** *** Calendar time *)

(** The fields of [struct tm] that the format of the servers reads. *)
Record tm : Type := mk_tm {
  tm_sec : Z;    (* 0..60 *)
  tm_min : Z;    (* 0..59 *)
  tm_hour : Z;   (* 0..23 *)
  tm_mday : Z;   (* 1..31 *)
  tm_mon : Z;    (* months since January, 0..11 *)
  tm_year : Z    (* years since 1900 *)
}.

Definition INT_MIN : Z := - 2 ^ 31.
Definition INT_MAX : Z := 2 ^ 31 - 1.

(** Year, month (1..12) and day (1..31) of the proleptic Gregorian
    calendar for a day number counted from 1970-01-01. Years run from
    March inside a 400-year era of 146097 days. *)
Definition civil_from_days (days : Z) : Z * Z * Z :=
  let z := days + 719468 in
  let era := z / 146097 in
  let doe := z mod 146097 in
  let yoe := (doe - doe / 1460 + doe / 36524 - doe / 146096) / 365 in
  let doy := doe - (365 * yoe + yoe / 4 - yoe / 100) in
  let mp := (5 * doy + 2) / 153 in
  let d := doy - (153 * mp + 2) / 5 + 1 in
  let m := if mp <? 10 then mp + 3 else mp - 9 in
  let y := yoe + era * 400 + (if m <=? 2 then 1 else 0) in
  (y, m, d).

(** [gmtime(&t)]: the broken-down UTC time of [t] seconds since the Epoch,
    [None] for the null pointer returned when the year does not fit the
    [int] field [tm_year]. *)
Definition gmtime (t : Z) : option tm :=
  let '(y, m, d) := civil_from_days (t / 86400) in
  let secs := t mod 86400 in
  if (INT_MIN <=? y - 1900) && (y - 1900 <=? INT_MAX)
  then Some {| tm_sec := secs mod 60;
               tm_min := secs / 60 mod 60;
               tm_hour := secs / 3600;
               tm_mday := d;
               tm_mon := m - 1;
               tm_year := y - 1900 |}
  else None.

(** *** Formatted output *)

(** The character of a decimal digit, ["0123456789"[d]]. *)
Definition digit (d : Z) : byte :=
  nth (Z.to_nat d) [x30; x31; x32; x33; x34; x35; x36; x37; x38; x39] x30.

(** A natural number in decimal, most significant digit first. *)
Equations? decimal (n : Z) : list byte by wf (Z.to_nat n) lt :=
  decimal n with Z_lt_dec n 10 := {
    | left _ => [digit n]
    | right _ => decimal (n / 10) ++ [digit (n mod 10)]
  }.
Proof. pose proof (Z.div_lt n 10); pose proof (Z.div_pos n 10); lia. Qed.

(** An integer in decimal with a minus sign when negative ([%d]). *)
Definition signed_decimal (n : Z) : list byte :=
  if n <? 0 then x2d :: decimal (- n) else decimal n.

(** A number padded with zeros to two digits ([%02d]). *)
Definition two_digits (n : Z) : list byte :=
  if (0 <=? n) && (n <? 10) then [x30; digit n] else signed_decimal n.

(** The expansion of ["%Y-%m-%dT%H:%M:%SZ"]: [%Y] is the year as a
    decimal number, [%m], [%d], [%H], [%M] and [%S] are two digits. *)
Definition iso8601 (t : tm) : list byte :=
  signed_decimal (tm_year t + 1900) ++ lit "-" ++
  two_digits (tm_mon t + 1) ++ lit "-" ++
  two_digits (tm_mday t) ++ lit "T" ++
  two_digits (tm_hour t) ++ lit ":" ++
  two_digits (tm_min t) ++ lit ":" ++
  two_digits (tm_sec t) ++ lit "Z".

(** [strftime(s, maxsize, "%Y-%m-%dT%H:%M:%SZ", t)] into the array [mem]:
    the expansion and its terminator are stored when they fit in
    [maxsize] bytes; otherwise 0 is returned and the content of the array
    is indeterminate, which [None] stands for. *)
Definition strftime (mem : list byte) (maxsize : Z) (t : tm)
  : Z * option (list byte) :=
  let s := iso8601 t in
  if zlen s + 1 <=? maxsize
  then (zlen s, Some (blit (s ++ [NUL]) mem))
  else (0, None).

(** [snprintf(mem, size, ...)] for an expansion [s]: at most [size - 1]
    bytes of it are stored, then a terminator. *)
Definition snprintf (mem : list byte) (size : Z) (s : list byte) : list byte :=
  blit (take (Z.to_nat (size - 1)) s ++ [NUL]) mem.

End Libc.

(** ** The process and its environment *)

Module Sys.
Import Libc.

(** What becomes of a [write] on a connection. The socket is blocking, so
    a write that succeeds takes all the bytes; one that fails returns -1
    with [errno] set, and one on a connection the peer has reset raises
    SIGPIPE, which ends a process that, like these two, leaves the signal
    at its default. *)
Inductive write_fate : Type :=
| Delivered
| Refused (err : Z)
| BrokenPipe.

(** One end of an accepted TCP connection: what has arrived from the peer
    and is not yet read, the [errno] of a failing [read] if the
    environment makes it fail, what the environment makes of a [write],
    and what was handed to [write] so far. *)
Record conn : Type := mk_conn {
  inbox : list byte;
  read_error : option Z;
  write_answer : write_fate;
  outbox : list byte
}.

Definition SIGPIPE : Z := 13.

(** The standard output stream: whether it is a terminal, which makes it
    line buffered instead of fully buffered, the bytes that have reached
    the file descriptor, and the bytes still in the buffer of the stream.
    The buffer holds [BUFSIZ] bytes, at least 256; the one line the
    programs print does not fill it. *)
Record stream : Type := mk_stream {
  on_terminal : bool;
  flushed : list byte;
  pending : list byte
}.

(** [l] up to and including its last newline, and what follows it. *)
Fixpoint through_last_newline (l : list byte) : list byte * list byte :=
  match l with
  | [] => ([], [])
  | b :: l' =>
      let (lines, rest) := through_last_newline l' in
      match lines with
      | [] => if Byte.eqb b LF then ([b], rest) else ([], b :: rest)
      | _ :: _ => (b :: lines, rest)
      end
  end.

(** Bytes put on the stream: they join the buffer, and a line buffered
    stream sends off what is complete lines. *)
Definition stream_put (l : list byte) (s : stream) : stream :=
  if on_terminal s
  then let (lines, rest) := through_last_newline (pending s ++ l) in
       mk_stream true (flushed s ++ lines) rest
  else mk_stream false (flushed s) (pending s ++ l).

(** [fflush]: the buffer is sent off. *)
Definition stream_flush (s : stream) : stream :=
  mk_stream (on_terminal s) (flushed s ++ pending s) [].

(** A line on the standard error stream. *)
Inductive diag : Type :=
| Perror (prefix : string) (err : Z)  (* perror(prefix) under errno = err *)
| Cerr (msg : string).                (* std::cerr << msg << std::endl *)

(** The state of the server process. [clock] is what [time] returns,
    [junk] the stale content of the stack that each uninitialised array,
    by its name, starts with, [client] the connection behind
    [client_socket] and [closed] the connections closed so far, oldest
    first. *)
Record proc : Type := mk_proc {
  errno : Z;
  clock : Z;
  junk : string -> nat -> byte;
  stdout : stream;
  stderr : list diag;
  client : conn;
  closed : list conn
}.

Definition set_errno (e : Z) (p : proc) : proc :=
  mk_proc e (clock p) (junk p) (stdout p) (stderr p) (client p) (closed p).
Definition set_client (c : conn) (p : proc) : proc :=
  mk_proc (errno p) (clock p) (junk p) (stdout p) (stderr p) c (closed p).
Definition log_stderr (d : diag) (p : proc) : proc :=
  mk_proc (errno p) (clock p) (junk p) (stdout p) (stderr p ++ [d]) (client p)
          (closed p).
Definition set_stdout (s : stream) (p : proc) : proc :=
  mk_proc (errno p) (clock p) (junk p) s (stderr p) (client p) (closed p).

(** How a computation of the process can end. *)
Inductive outcome (A : Type) : Type :=
| Return (a : A) (p : proc)     (* it yields [a] *)
| Undefined (f : fault)         (* it leaves the defined behaviour *)
| Exited (code : Z) (p : proc)  (* it called [exit(code)] *)
| Killed (signal : Z) (p : proc) (* a signal ended the process *)
| Waiting (p : proc).           (* it is blocked in [accept], nobody connecting *)
Arguments Return {A} a p.
Arguments Undefined {A} f.
Arguments Exited {A} code p.
Arguments Killed {A} signal p.
Arguments Waiting {A} p.

Definition M (A : Type) : Type := proc -> outcome A.

Definition ret {A} (a : A) : M A := fun p => Return a p.
Definition bind {A B} (m : M A) (k : A -> M B) : M B :=
  fun p => match m p with
           | Return a p' => k a p'
           | Undefined f => Undefined f
           | Exited code p' => Exited code p'
           | Killed signal p' => Killed signal p'
           | Waiting p' => Waiting p'
           end.
Definition lift {A} (r : result A) : M A :=
  fun p => match r with
           | Done a => Return a p
           | Crash f => Undefined f
           end.
Definition undefined {A} (f : fault) : M A := fun _ => Undefined f.

(** [exit(code)]: the stream is flushed and the process ends. *)
Definition exit {A} (code : Z) : M A :=
  fun p => Exited code (set_stdout (stream_flush (stdout p)) p).

(** What a system call hands back: a non-negative value, or -1 with
    [errno] set. *)
Inductive sysret : Type :=
| Success (v : N)
| Failure (err : Z).

Definition syscall (r : sysret) : M Z :=
  fun p => match r with
           | Success v => Return (Z.of_N v) p
           | Failure e => Return (-1) (set_errno e p)
           end.

(** [read(client_socket, mem, count)]: the bytes that have arrived, at
    most [count] of them, are taken off the connection and stored at the
    start of [mem]; their number is returned, 0 when the peer has closed
    without sending. When the call fails it returns -1 with [errno] set and
    stores nothing. *)
Definition read (mem : list byte) (count : Z) : M (Z * list byte) :=
  fun p =>
    let c := client p in
    match read_error c with
    | Some e => Return (-1, mem) (set_errno e p)
    | None =>
        let data := take (Z.to_nat count) (inbox c) in
        if zlen data <=? zlen mem
        then Return (zlen data, blit data mem)
               (set_client (mk_conn (drop (Z.to_nat count) (inbox c)) None
                                    (write_answer c) (outbox c)) p)
        else Undefined OutOfBounds
    end.

(** [write(client_socket, mem, n)], the descriptor being a blocking socket
    and the process having no signal handler. [outbox] records the [n]
    bytes the call is made with, whatever becomes of them. When the
    connection takes the bytes it takes them all and the call returns [n];
    when it refuses them the call returns -1 with [errno] set; when the pipe
    is broken the call does not return, SIGPIPE ends the process. *)
Definition write (mem : list byte) (n : Z) : M Z :=
  fun p =>
    let c := client p in
    if (0 <=? n) && (n <=? zlen mem)
    then
      let p' := set_client (mk_conn (inbox c) (read_error c) (write_answer c)
                                    (outbox c ++ take (Z.to_nat n) mem)) p in
      match write_answer c with
      | Delivered => Return n p'
      | Refused e => Return (-1) (set_errno e p')
      | BrokenPipe => Killed SIGPIPE p'
      end
    else Undefined OutOfBounds.

(** [close(client_socket)]. *)
Definition close : M unit :=
  fun p => Return tt (mk_proc (errno p) (clock p) (junk p) (stdout p) (stderr p)
                              (client p) (closed p ++ [client p])).

Definition perror (prefix : string) : M unit :=
  fun p => Return tt (log_stderr (Perror prefix (errno p)) p).
Definition cerr (msg : string) : M unit :=
  fun p => Return tt (log_stderr (Cerr msg) p).

(** [printf] of a text with its conversions expanded to [l]. *)
Definition printf (l : list byte) : M unit :=
  fun p => Return tt (set_stdout (stream_put l (stdout p)) p).

(** [std::cout << l], the stream being the one of [printf]. *)
Definition cout (l : list byte) : M unit :=
  fun p => Return tt (set_stdout (stream_put l (stdout p)) p).

(** [std::cout << std::endl]: a newline, then a flush. *)
Definition endl : M unit :=
  fun p => Return tt (set_stdout (stream_flush (stream_put [LF] (stdout p))) p).

(** [time(NULL)]. *)
Definition time : M Z := fun p => Return (clock p) p.

(** The automatic array [name] of [size] chars, not initialised. *)
Definition alloca (name : string) (size : Z) : M (list byte) :=
  fun p => Return (uninit (junk p name) size) p.

(** What the environment answers to the calls of [main] before the loop. *)
Record startup : Type := mk_startup {
  su_socket : sysret;
  su_setsockopt : sysret;
  su_bind : sysret;
  su_listen : sysret
}.

(** What the environment answers to one [accept]: a failure, or a peer
    with the descriptor it gets; [now] and [stack] are the clock and the
    stale stack content while that connection is served. *)
Inductive accept_event : Type :=
| AcceptError (err : Z)
| Incoming (fd : N) (c : conn) (now : Z) (stack : string -> nat -> byte).

Definition accept (ev : accept_event) : M Z :=
  fun p => match ev with
           | AcceptError e => Return (-1) (set_errno e p)
           | Incoming fd c now stack =>
               Return (Z.of_N fd)
                 (mk_proc (errno p) now stack (stdout p) (stderr p) c (closed p))
           end.

(** [accept] with no answer from the environment yet. *)
Definition wait {A} : M A := fun p => Waiting p.

End Sys.

Declare Scope prog_scope.
Delimit Scope prog_scope with prog.
Notation "'let*' x ':=' m 'in' k" := (Sys.bind m (fun x => k))
  (at level 10, x pattern, m at level 200, k at level 200, only parsing) : prog_scope.

(** ** examples/c-app/server.c *)

Module ServerC.
Import Libc Sys.
Local Open Scope prog_scope.

Definition PORT : Z := 8080.
Definition BUFFER_SIZE : Z := 4096.

(** The expansion of the format of the health answer, [%s] being [ts]. *)
Definition health_format (ts : list byte) : list byte :=
  lit "HTTP/1.1 200 OK" ++ [CR; LF] ++
  lit "Content-Type: application/json" ++ [CR; LF] ++
  [CR; LF] ++
  lit "{" ++ [DQUOTE] ++ lit "status" ++ [DQUOTE] ++ lit ": " ++
  [DQUOTE] ++ lit "ok" ++ [DQUOTE] ++ lit ", " ++
  [DQUOTE] ++ lit "timestamp" ++ [DQUOTE] ++ lit ": " ++
  [DQUOTE] ++ ts ++ [DQUOTE] ++ lit "}" ++ [LF].

(** The format of the other answer; it has no conversion. *)
Definition hello_format : list byte :=
  lit "HTTP/1.1 200 OK" ++ [CR; LF] ++
  lit "Content-Type: text/plain" ++ [CR; LF] ++
  [CR; LF] ++
  lit "Hello from agentkernel sandbox!" ++ [LF].

Definition handle_request : M unit :=
  let* buffer := alloca "buffer" BUFFER_SIZE in
  let* response := alloca "response" BUFFER_SIZE in
  (* Read request *)
  let* (bytes_read, buffer) := read buffer (BUFFER_SIZE - 1) in
  if bytes_read <? 0 then
    perror "read"
  else
    let* buffer := lift (store buffer bytes_read NUL) in
    (* Check for /health endpoint *)
    let* request := lift (c_str buffer) in
    let* response :=
      if strstr request (lit "GET /health") is Some _ then
        let* now := time in
        let* timestamp := alloca "timestamp" 64 in
        match gmtime now with
        | None => undefined NullDereference
        | Some t =>
            match strftime timestamp 64 t with
            | (_, None) => undefined IndeterminateRead
            | (_, Some timestamp) =>
                let* ts := lift (c_str timestamp) in
                ret (snprintf response BUFFER_SIZE (health_format ts))
            end
        end
      else
        ret (snprintf response BUFFER_SIZE hello_format)
    in
    let* n := lift (strlen response) in
    let* _ := write response n in
    ret tt.

(** The body of [while (1)], once for each answer of the environment to
    [accept]; the process waits when the answers run out. *)
Fixpoint accept_loop (evs : list accept_event) : M unit :=
  match evs with
  | [] => wait
  | ev :: evs' =>
      let* client_socket := accept ev in
      if client_socket <? 0 then
        let* _ := perror "accept" in
        accept_loop evs'
      else
        let* _ := handle_request in
        let* _ := close in
        accept_loop evs'
  end.

(** The line [printf("C server listening on port %d\n", PORT)] prints. *)
Definition banner : list byte :=
  lit "C server listening on port " ++ signed_decimal PORT ++ [LF].

Definition main (su : startup) (evs : list accept_event) : M Z :=
  (* Create socket *)
  let* server_socket := syscall (su_socket su) in
  if server_socket <? 0 then
    let* _ := perror "socket" in
    exit 1
  else
    (* Allow address reuse *)
    let* _ := syscall (su_setsockopt su) in
    (* Bind *)
    let* r := syscall (su_bind su) in
    if r <? 0 then
      let* _ := perror "bind" in
      exit 1
    else
      (* Listen *)
      let* r := syscall (su_listen su) in
      if r <? 0 then
        let* _ := perror "listen" in
        exit 1
      else
        let* _ := printf banner in
        (* Accept connections *)
        let* _ := accept_loop evs in
        (* close(server_socket), which has no state here *)
        ret 0.

End ServerC.

(** ** examples/c-app/server.cpp *)

Module ServerCpp.
Import Libc Sys.
Local Open Scope prog_scope.

Definition PORT : Z := 8080.
Definition BUFFER_SIZE : Z := 4096.

(** [std::string::find(needle)]: the lowest position at which [needle]
    occurs in [s], [None] for [npos]. *)
Definition find (s needle : list byte) : option nat :=
  List.find (fun pos => starts_with needle (drop pos s))
            (seq 0 (S (length s) - length needle)).

(** [std::put_time(&tm, "%Y-%m-%dT%H:%M:%SZ")] sent to a string stream. *)
Definition put_time (t : tm) : list byte := iso8601 t.

Definition get_timestamp : M (list byte) :=
  let* now := time in
  match gmtime now with
  | None => undefined NullDereference
  | Some t => ret (put_time t)
  end.

(** The adjacent literals of the health answer up to the timestamp, the
    last of them the raw string. *)
Definition health_head : list byte :=
  (lit "HTTP/1.1 200 OK" ++ [CR; LF]) ++
  (lit "Content-Type: application/json" ++ [CR; LF]) ++
  [CR; LF] ++
  (lit "{" ++ [DQUOTE] ++ lit "status" ++ [DQUOTE] ++ lit ": " ++
   [DQUOTE] ++ lit "ok" ++ [DQUOTE] ++ lit ", " ++
   [DQUOTE] ++ lit "timestamp" ++ [DQUOTE] ++ lit ": " ++ [DQUOTE]).

Definition hello_text : list byte :=
  (lit "HTTP/1.1 200 OK" ++ [CR; LF]) ++
  (lit "Content-Type: text/plain" ++ [CR; LF]) ++
  [CR; LF] ++
  (lit "Hello from agentkernel sandbox!" ++ [LF]).

Definition handle_request : M unit :=
  let* buffer := alloca "buffer" BUFFER_SIZE in
  let* (bytes_read, buffer) := read buffer (BUFFER_SIZE - 1) in
  if bytes_read <? 0 then
    cerr "Error reading from socket"
  else
    let* buffer := lift (store buffer bytes_read NUL) in
    let* request := lift (c_str buffer) in
    let* response :=
      if find request (lit "GET /health") is Some _ then
        let* ts := get_timestamp in
        ret (health_head ++ ts ++ [DQUOTE] ++ lit "}" ++ [LF])
      else
        ret hello_text
    in
    let* _ := write (response ++ [NUL]) (zlen response) in
    ret tt.

Fixpoint accept_loop (evs : list accept_event) : M unit :=
  match evs with
  | [] => wait
  | ev :: evs' =>
      let* client_socket := accept ev in
      if client_socket <? 0 then
        let* _ := cerr "Accept failed" in
        accept_loop evs'
      else
        let* _ := handle_request in
        let* _ := close in
        accept_loop evs'
  end.

Definition main (su : startup) (evs : list accept_event) : M Z :=
  let* server_socket := syscall (su_socket su) in
  if server_socket <? 0 then
    let* _ := cerr "Failed to create socket" in
    ret 1
  else
    let* _ := syscall (su_setsockopt su) in
    let* r := syscall (su_bind su) in
    if r <? 0 then
      let* _ := cerr "Bind failed" in
      ret 1
    else
      let* r := syscall (su_listen su) in
      if r <? 0 then
        let* _ := cerr "Listen failed" in
        ret 1
      else
        let* _ := cout (lit "C++ server listening on port ") in
        let* _ := cout (signed_decimal PORT) in
        let* _ := endl in
        let* _ := accept_loop evs in
        (* close(server_socket), which has no state here *)
        ret 0.

End ServerCpp.

(** * Notions of the specification *)

Import Libc Sys.

(** ** Byte strings *)

(** [needle] occurs somewhere in [s]. *)
Definition contains (needle s : list byte) : Prop :=
  exists pre post, s = pre ++ needle ++ post.

(** The literal the handlers look for. *)
Definition health_probe : list byte := lit "GET /health".

(** The bytes of [s] before its first NUL, all of [s] when it has none. *)
Fixpoint until_nul (s : list byte) : list byte :=
  match s with
  | [] => []
  | b :: s' => if Byte.eqb b NUL then [] else b :: until_nul s'
  end.

Definition no_nul (s : list byte) : bool :=
  forallb (fun b => negb (Byte.eqb b NUL)) s.

(** ** Timestamps *)

(** The day number, counted from 1970-01-01, of a date of the proleptic
    Gregorian calendar. *)
Definition days_from_civil (date : Z * Z * Z) : Z :=
  let '(y, m, d) := date in
  let y' := if m <=? 2 then y - 1 else y in
  let era := y' / 400 in
  let yoe := y' mod 400 in
  let mp := if 2 <? m then m - 3 else m + 9 in
  let doy := (153 * mp + 2) / 5 + d - 1 in
  let doe := yoe * 365 + yoe / 4 - yoe / 100 + doy in
  era * 146097 + doe - 719468.

(** Clock readings whose UTC year has four digits: from
    1000-01-01T00:00:00Z up to 9999-12-31T23:59:59Z. *)
Definition four_digit_year (now : Z) : Prop :=
  -30610224000 <= now < 253402300800.

Definition is_digit (b : byte) : bool :=
  ((48 <=? Byte.to_N b) && (Byte.to_N b <=? 57))%N.

(** The letters that stand for a digit in [YYYY-MM-DDTHH:MM:SSZ]; [T] and
    [Z] stand for themselves. *)
Definition placeholder (c : byte) : bool :=
  existsb (Byte.eqb c) (lit "YMDHS").

Fixpoint matches (pattern s : list byte) : bool :=
  match pattern, s with
  | [], [] => true
  | c :: pattern', b :: s' =>
      (if placeholder c then is_digit b else Byte.eqb c b) && matches pattern' s'
  | _, _ => false
  end.

Definition timestamp_pattern : list byte := lit "YYYY-MM-DDTHH:MM:SSZ".

(** ** The two responses *)

Definition CRLF : list byte := [CR; LF].

(** An HTTP response: status line, header lines, an empty line, the body. *)
Definition http_response (status_line : list byte) (headers : list (list byte))
    (body : list byte) : list byte :=
  status_line ++ CRLF ++ concat (map (fun h => h ++ CRLF) headers) ++ CRLF ++ body.

Definition quoted (s : list byte) : list byte := [DQUOTE] ++ s ++ [DQUOTE].

(** The JSON object with the fields [status] and [timestamp], and a
    newline. *)
Definition health_body (ts : list byte) : list byte :=
  lit "{" ++ quoted (lit "status") ++ lit ": " ++ quoted (lit "ok") ++ lit ", " ++
  quoted (lit "timestamp") ++ lit ": " ++ quoted ts ++ lit "}" ++ [LF].

Definition health_response (ts : list byte) : list byte :=
  http_response (lit "HTTP/1.1 200 OK") [lit "Content-Type: application/json"]
                (health_body ts).

Definition default_body : list byte := lit "Hello from agentkernel sandbox!" ++ [LF].

Definition default_response : list byte :=
  http_response (lit "HTTP/1.1 200 OK") [lit "Content-Type: text/plain"] default_body.

(** ** What a handler does to the process *)

(** The bytes the single [read] of a handler takes off the connection. *)
Definition received (p : proc) : list byte :=
  take (Z.to_nat 4095) (inbox (client p)).

(** The process after those bytes were read and [write] was called with
    [resp]. *)
Definition answered (resp : list byte) (p : proc) : proc :=
  set_client (mk_conn (drop (Z.to_nat 4095) (inbox (client p))) None
                      (write_answer (client p))
                      (outbox (client p) ++ resp)) p.

(** How a handler ends once it has built [resp]: its last call is the
    [write] of [resp], whose result it does not look at. It returns when the
    connection takes the bytes and when it refuses them, then with [errno]
    set; it is killed by SIGPIPE when the pipe is broken. *)
Definition delivery (resp : list byte) : M unit :=
  fun p =>
    match write_answer (client p) with
    | Delivered => Return tt (answered resp p)
    | Refused e => Return tt (set_errno e (answered resp p))
    | BrokenPipe => Killed SIGPIPE (answered resp p)
    end.

Inductive route : Type := Health | Default.

(** The test both handlers make, on the string the request buffer denotes
    once the bytes read are terminated. *)
Definition classify (bytes : list byte) : route :=
  if strstr (until_nul bytes) health_probe is Some _ then Health else Default.

(** The answer on each route; the health answer carries the clock reading. *)
Definition response_for (r : route) (now : Z) : result (list byte) :=
  match r with
  | Default => Done default_response
  | Health =>
      match gmtime now with
      | None => Crash NullDereference
      | Some t => Done (health_response (iso8601 t))
      end
  end.

(** The rest of a handler after the test. *)
Definition respond (r : route) : M unit :=
  fun p =>
    match response_for r (clock p) with
    | Done resp => delivery resp p
    | Crash f => Undefined f
    end.

(** What two outcomes of a handler have in common when the same bytes went
    out: both return with the connection in the same state, or both are
    killed by the same signal with the connection in the same state, or both
    leave the defined behaviour for the same reason. *)
Definition same_response (o1 o2 : outcome unit) : Prop :=
  match o1, o2 with
  | Return _ p1, Return _ p2 => client p1 = client p2
  | Killed s1 p1, Killed s2 p2 => s1 = s2 /\ client p1 = client p2
  | Undefined f1, Undefined f2 => f1 = f2
  | _, _ => False
  end.

(** ** What the accept loop does *)

(** The process when [accept] has returned the connection [c]. *)
Definition entered (c : conn) (now : Z) (stack : string -> nat -> byte) (p : proc)
  : proc :=
  mk_proc (errno p) now stack (stdout p) (stderr p) c (closed p).

(** What serving a connection comes to: the handler returns and the
    connection is closed, or a signal ends the process in the handler, or
    the handler leaves the defined behaviour. *)
Inductive service (A : Type) : Type :=
| Closed (a : A)
| Broken (signal : Z)
| Faulty (f : fault).
Arguments Closed {A} a.
Arguments Broken {A} signal.
Arguments Faulty {A} f.

(** A connection once a handler is done with it, at clock reading [now]:
    untouched when its [read] fails, else its first bytes consumed and
    [write] called with the answer, which ends the process when the pipe is
    broken. *)
Definition serve (c : conn) (now : Z) : service conn :=
  match read_error c with
  | Some _ => Closed c
  | None =>
      match response_for (classify (take (Z.to_nat 4095) (inbox c))) now with
      | Done resp =>
          match write_answer c with
          | BrokenPipe => Broken SIGPIPE
          | Delivered | Refused _ =>
              Closed (mk_conn (drop (Z.to_nat 4095) (inbox c)) None
                              (write_answer c) (outbox c ++ resp))
          end
      | Crash f => Faulty f
      end
  end.

(** The connections of [evs], each served on its own, in order of arrival,
    when serving them all neither ends the process nor goes astray. *)
Fixpoint served (evs : list accept_event) : service (list conn) :=
  match evs with
  | [] => Closed []
  | AcceptError _ :: evs' => served evs'
  | Incoming _ c now _ :: evs' =>
      match serve c now with
      | Closed c' =>
          match served evs' with
          | Closed l => Closed (c' :: l)
          | Broken s => Broken s
          | Faulty f => Faulty f
          end
      | Broken s => Broken s
      | Faulty f => Faulty f
      end
  end.

(** The answers to [accept] that come before the one on which the process
    stops, all of them when it does not stop. *)
Fixpoint before_stop (evs : list accept_event) : list accept_event :=
  match evs with
  | [] => []
  | AcceptError e :: evs' => AcceptError e :: before_stop evs'
  | Incoming fd c now stack :: evs' =>
      match serve c now with
      | Closed _ => Incoming fd c now stack :: before_stop evs'
      | Broken _ | Faulty _ => []
      end
  end.

(** The connections among the answers to [accept], with the clock reading
    under which each is served. *)
Fixpoint connections (evs : list accept_event) : list (conn * Z) :=
  match evs with
  | [] => []
  | AcceptError _ :: evs' => connections evs'
  | Incoming _ c now _ :: evs' => (c, now) :: connections evs'
  end.



(** What each program reports on standard error for one [accept]. *)
Definition c_report (ev : accept_event) : list diag :=
  match ev with
  | AcceptError e => [Perror "accept" e]
  | Incoming _ c _ _ =>
      match read_error c with
      | Some e => [Perror "read" e]
      | None => []
      end
  end.

Definition cpp_report (ev : accept_event) : list diag :=
  match ev with
  | AcceptError _ => [Cerr "Accept failed"]
  | Incoming _ c _ _ =>
      match read_error c with
      | Some _ => [Cerr "Error reading from socket"]
      | None => []
      end
  end.

(** ** Startup and exit *)

Inductive startup_call : Type := Socket | Bind | Listen.

(** The first of [socket], [bind] and [listen] that fails, with its
    [errno]; the result of [setsockopt] is not looked at. *)
Definition first_failure (su : startup) : option (startup_call * Z) :=
  match su_socket su, su_bind su, su_listen su with
  | Failure e, _, _ => Some (Socket, e)
  | Success _, Failure e, _ => Some (Bind, e)
  | Success _, Success _, Failure e => Some (Listen, e)
  | Success _, Success _, Success _ => None
  end.

(** The call has failed. *)
Definition fails (r : sysret) : Prop := exists e, r = Failure e.

Definition c_prefix (call : startup_call) : string :=
  match call with
  | Socket => "socket"
  | Bind => "bind"
  | Listen => "listen"
  end.

Definition cpp_message (call : startup_call) : string :=
  match call with
  | Socket => "Failed to create socket"
  | Bind => "Bind failed"
  | Listen => "Listen failed"
  end.

(** The status the process exits with: the argument of [exit], or the
    value [main] returns. A process that a signal ended has none. *)
Definition exit_status (o : outcome Z) : option Z :=
  match o with
  | Return v _ => Some v
  | Exited code _ => Some code
  | Undefined _ | Killed _ _ | Waiting _ => None
  end.

(** What server.c and server.cpp do to the standard output stream once
    [listen] has succeeded. *)
Definition c_says (s : stream) : stream := stream_put ServerC.banner s.
Definition cpp_says (s : stream) : stream :=
  stream_flush
    (stream_put [LF]
       (stream_put (signed_decimal ServerCpp.PORT)
          (stream_put (lit "C++ server listening on port ") s))).

(** The process once the listening socket is set up and announced. *)
Definition listening (says : stream -> stream) (su : startup) (p : proc) : proc :=
  match su_setsockopt su with
  | Success _ => set_stdout (says (stdout p)) p
  | Failure e => set_stdout (says (stdout p)) (set_errno e p)
  end.

(** ** Inputs used as examples *)

(** A peer that has sent [sent]. *)
Definition peer (sent : list byte) : conn := mk_conn sent None Delivered [].

(** A peer whose connection fails on [read] with [ECONNRESET]. *)
Definition reset_peer : conn := mk_conn [] (Some 104) Delivered [].

(** A process about to handle the connection [c] at clock reading [now],
    its stack full of [0xff]. *)
Definition handling (c : conn) (now : Z) : proc :=
  mk_proc 0 now (fun _ _ => xff) (mk_stream false [] []) [] c [].

(** 2024-01-01T00:00:00Z. *)
Definition new_year_2024 : Z := 1704067200.

Definition health_request : list byte :=
  lit "GET /health HTTP/1.1" ++ CRLF ++ lit "Host: x" ++ CRLF ++ CRLF.

Definition root_request : list byte :=
  lit "GET / HTTP/1.1" ++ CRLF ++ lit "Host: x" ++ CRLF ++ CRLF.

(** The probe behind a NUL byte. *)
Definition hidden_probe : list byte := NUL :: lit "GET /health HTTP/1.1".

(** A payload longer than one read: 4095 filler bytes, then the probe. *)
Definition long_payload : list byte := repeat x41 4095 ++ health_probe.

(** The runs of a handler the examples are about. *)
Definition health_run : proc := handling (peer health_request) new_year_2024.
Definition root_run : proc := handling (peer root_request) new_year_2024.
Definition hidden_probe_run : proc := handling (peer hidden_probe) new_year_2024.
Definition silent_run : proc := handling (peer []) new_year_2024.
Definition reset_run : proc := handling reset_peer new_year_2024.
Definition long_run : proc := handling (peer long_payload) new_year_2024.
Definition cut_run : proc := handling (peer (repeat x41 4095)) 0.

(** 10000-01-01T00:00:00Z, the second after 9999-12-31T23:59:59Z. *)
Definition year_10000 : Z := 253402300800.
Definition year_10000_run : proc := handling (peer health_request) year_10000.

(** A process that has not run yet. *)
Definition boot : proc :=
  mk_proc 0 0 (fun _ _ => xff) (mk_stream false [] []) [] (peer []) [].

(** An environment in which every call before the loop succeeds. *)
Definition fair_startup : startup :=
  mk_startup (Success 3) (Success 0) (Success 0) (Success 0).

(** An environment in which the port is taken: [bind] fails with
    [EADDRINUSE]. *)
Definition port_taken : startup :=
  mk_startup (Success 3) (Success 0) (Failure 98) (Success 0).



(** A failed [accept], then two peers one after the other. *)
Definition two_peers : list accept_event :=
  [AcceptError 24;
   Incoming 4 (peer health_request) new_year_2024 (fun _ _ => xff);
   Incoming 4 (peer root_request) (new_year_2024 + 1) (fun _ _ => x00)].

(** ** Reading a timestamp back *)

(** The number a decimal digit character stands for. *)
Definition digit_value (b : byte) : Z := Z.of_N (Byte.to_N b) - 48.

(** The number a string of decimal digits stands for. *)
Definition number (s : list byte) : Z :=
  fold_left (fun acc b => 10 * acc + digit_value b) s 0.

(** The clock reading a timestamp of the shape [YYYY-MM-DDTHH:MM:SSZ]
    stands for: its date as a day number, and its time of day. *)
Definition parse_timestamp (ts : list byte) : option Z :=
  match ts with
  | [y1; y2; y3; y4; _; m1; m2; _; d1; d2; _; h1; h2; _; n1; n2; _; s1; s2; _] =>
      Some (days_from_civil (number [y1; y2; y3; y4], number [m1; m2], number [d1; d2])
              * 86400
            + number [h1; h2] * 3600 + number [n1; n2] * 60 + number [s1; s2])
  | _ => None
  end.

(** ** More on handlers and runs *)



(** What a run leaves for others to see: the lines on standard output and
    standard error and the connections it closed. *)
Definition transcript (p : proc) : stream * list diag * list conn :=
  (stdout p, stderr p, closed p).

(** Two runs of [main] end the same way and leave the same transcript. *)
Definition same_run (o1 o2 : outcome Z) : Prop :=
  match o1, o2 with
  | Return v1 p1, Return v2 p2 => v1 = v2 /\ transcript p1 = transcript p2
  | Exited c1 p1, Exited c2 p2 => c1 = c2 /\ transcript p1 = transcript p2
  | Killed s1 p1, Killed s2 p2 => s1 = s2 /\ transcript p1 = transcript p2
  | Waiting p1, Waiting p2 => transcript p1 = transcript p2
  | Undefined f1, Undefined f2 => f1 = f2
  | _, _ => False
  end.

(** The environment [su] with another answer to [setsockopt]. *)
Definition with_setsockopt (r : sysret) (su : startup) : startup :=
  mk_startup (su_socket su) r (su_bind su) (su_listen su).


(** The probe ends at the last byte one read takes. *)
Definition edge_run : proc :=
  handling (peer (repeat x41 4084 ++ health_probe ++ lit " HTTP/1.1")) new_year_2024.

(** The probe lies across the end of what one read takes. *)
Definition straddle_run : proc :=
  handling (peer (repeat x41 4090 ++ health_probe ++ lit " HTTP/1.1")) new_year_2024.

(** * Properties *)

(** ** Strings in arrays *)

Section CStrings.

Lemma byte_eqb_eq (a b : byte) : Byte.eqb a b = true <-> a = b.
Proof.
  split; [apply Byte.byte_dec_bl | apply Byte.byte_dec_lb].
Qed.

Lemma byte_eqb_refl (a : byte) : Byte.eqb a a = true.
Proof. now apply byte_eqb_eq. Qed.

Lemma zlen_app (a b : list byte) : zlen (a ++ b) = zlen a + zlen b.
Proof. unfold zlen. rewrite length_app. lia. Qed.

Lemma zlen_nonneg (a : list byte) : 0 <= zlen a.
Proof. unfold zlen. lia. Qed.

Lemma uninit_length junk size : length (uninit junk size) = Z.to_nat size.
Proof. unfold uninit. now rewrite length_map, length_seq. Qed.

Lemma no_nul_app a b : no_nul (a ++ b) = no_nul a && no_nul b.
Proof. apply forallb_app. Qed.

Lemma until_nul_no_nul s : no_nul s = true -> until_nul s = s.
Proof.
  induction s as [|b s IH]; simpl; [reflexivity|].
  destruct (Byte.eqb b NUL); simpl; [discriminate|].
  intros H. now rewrite IH.
Qed.

Lemma until_nul_prefix s : exists rest, s = until_nul s ++ rest.
Proof.
  induction s as [|b s [rest IH]]; simpl.
  - now exists [].
  - destruct (Byte.eqb b NUL).
    + now exists (b :: s).
    + exists rest. simpl. now rewrite <- IH.
Qed.

(** A terminator stored right after [data] makes the array denote the
    string [until_nul data], whatever follows. *)
Lemma c_str_terminated data rest :
  c_str (data ++ NUL :: rest) = Done (until_nul data).
Proof.
  induction data as [|b data IH]; simpl; [reflexivity|].
  destruct (Byte.eqb b NUL); [reflexivity|].
  now rewrite IH.
Qed.

Lemma blit_app data mem :
  (length data <= length mem)%nat ->
  blit data mem = data ++ drop (length data) mem /\
  length (blit data mem) = length mem.
Proof.
  intros H. split; [reflexivity|].
  unfold blit. rewrite length_app, length_drop. lia.
Qed.

(** Storing the terminator at index [zlen data] of an array that starts
    with [data] and is longer than it. *)
Lemma store_terminator data mem :
  (length data < length mem)%nat ->
  store (blit data mem) (zlen data) NUL
  = Done (data ++ NUL :: drop (S (length data)) mem).
Proof.
  intros H. unfold store.
  destruct (blit_app data mem) as [_ Hlen]; [lia|].
  replace ((0 <=? zlen data) && (zlen data <? zlen (blit data mem))) with true.
  2:{ symmetry. apply andb_true_iff. unfold zlen. rewrite Hlen. split; lia. }
  f_equal. unfold blit, zlen. rewrite Nat2Z.id.
  rewrite insert_app_r_alt by lia. rewrite Nat.sub_diag.
  destruct (drop (length data) mem) as [|b tl] eqn:E.
  - apply (f_equal length) in E. rewrite length_drop in E. simpl in E. lia.
  - simpl. do 2 f_equal.
    change tl with (drop 1 (b :: tl)). rewrite <- E, drop_drop. f_equal. lia.
Qed.

Lemma starts_with_spec needle hay :
  starts_with needle hay = true <-> exists post, hay = needle ++ post.
Proof.
  revert hay. induction needle as [|a needle IH]; intros hay; simpl.
  - split; [intros _; now exists hay | reflexivity].
  - destruct hay as [|b hay].
    + split; [discriminate | intros [post H]; discriminate].
    + rewrite andb_true_iff, byte_eqb_eq, IH. split.
      * intros [-> [post ->]]. now exists post.
      * intros [post H]. injection H as -> ->. split; [reflexivity | now exists post].
Qed.

Lemma starts_with_length needle hay :
  starts_with needle hay = true -> (length needle <= length hay)%nat.
Proof.
  intros [post ->]%starts_with_spec. rewrite length_app. lia.
Qed.

(** [strstr] finds an occurrence, and the first one. *)
Lemma strstr_Some hay needle i :
  strstr hay needle = Some i ->
  starts_with needle (drop i hay) = true /\
  forall j, (j < i)%nat -> starts_with needle (drop j hay) = false.
Proof.
  revert i. induction hay as [|b hay IH]; intros i; simpl.
  - destruct (starts_with needle []) eqn:E; [|discriminate].
    intros [= <-]. split; [exact E | lia].
  - destruct (starts_with needle (b :: hay)) eqn:E.
    + intros [= <-]. split; [exact E | lia].
    + destruct (strstr hay needle) as [k|] eqn:Ek; simpl; [|discriminate].
      intros [= <-]. destruct (IH k eq_refl) as [H1 H2]. split; [exact H1|].
      intros [|j] Hj; [exact E | apply H2; lia].
Qed.

Lemma strstr_None hay needle :
  strstr hay needle = None ->
  forall j, starts_with needle (drop j hay) = false.
Proof.
  induction hay as [|b hay IH]; simpl.
  - destruct (starts_with needle []) eqn:E; [discriminate|].
    intros _ j. now rewrite drop_nil.
  - destruct (starts_with needle (b :: hay)) eqn:E; [discriminate|].
    destruct (strstr hay needle) eqn:Ek; simpl; [discriminate|].
    intros _ [|j]; [exact E | now apply IH].
Qed.

Lemma contains_drop needle hay :
  contains needle hay <-> exists j, starts_with needle (drop j hay) = true.
Proof.
  split.
  - intros (pre & post & ->). exists (length pre).
    rewrite drop_app_length. apply starts_with_spec. now exists post.
  - intros [j [post H]%starts_with_spec]. exists (take j hay), post.
    now rewrite <- H, take_drop.
Qed.

(** [strstr] answers non-null exactly when the needle occurs. *)
Lemma strstr_contains hay needle :
  is_Some (strstr hay needle) <-> contains needle hay.
Proof.
  rewrite contains_drop. split.
  - intros [i H]. exists i. now apply strstr_Some in H.
  - intros [j Hj]. destruct (strstr hay needle) eqn:E; [now eexists|].
    rewrite (strstr_None _ _ E j) in Hj. discriminate.
Qed.

Lemma find_seq_S (f : nat -> bool) start len :
  List.find f (seq (S start) len) = S <$> List.find (fun i => f (S i)) (seq start len).
Proof.
  revert start. induction len as [|len IH]; intros start; simpl; [reflexivity|].
  destruct (f (S start)); [reflexivity | apply IH].
Qed.

(** [std::string::find] and [strstr] locate the same position. *)
Lemma find_strstr s needle : ServerCpp.find s needle = strstr s needle.
Proof.
  unfold ServerCpp.find. induction s as [|b s IH].
  - simpl. destruct needle as [|a needle]; reflexivity.
  - destruct (le_lt_dec (length needle) (S (length s))) as [Hle|Hgt].
    + replace (S (length (b :: s)) - length needle)%nat
        with (S (S (length s) - length needle)) by (simpl; lia).
      cbn [seq List.find drop strstr].
      destruct (starts_with needle (b :: s)); [reflexivity|].
      rewrite find_seq_S. cbn [drop]. now rewrite IH.
    + replace (S (length (b :: s)) - length needle)%nat with 0%nat by (simpl; lia).
      cbn [seq List.find strstr].
      destruct (starts_with needle (b :: s)) eqn:E.
      { apply starts_with_length in E. simpl in E. lia. }
      rewrite <- IH.
      replace (S (length s) - length needle)%nat with 0%nat by lia.
      reflexivity.
Qed.

End CStrings.

(** ** Calendar time *)

Section Calendar.

Lemma civil_from_days_range days y m d :
  civil_from_days days = (y, m, d) -> 1 <= m <= 12 /\ 1 <= d <= 31.
Proof.
  unfold civil_from_days. cbv zeta.
  set (doe := (days + 719468) mod 146097).
  set (yoe := (doe - doe / 1460 + doe / 36524 - doe / 146096) / 365).
  set (doy := doe - (365 * yoe + yoe / 4 - yoe / 100)).
  set (mp := (5 * doy + 2) / 153).
  intros [= <- <- <-].
  assert (Hdoe : 0 <= doe < 146097) by (apply Z.mod_pos_bound; lia).
  assert (Hdoy : 0 <= doy <= 365).
  { subst doy yoe. clearbody doe. Z.div_mod_to_equations; lia. }
  clearbody doy. clear yoe doe Hdoe.
  assert (Hmp : 0 <= mp <= 11) by (subst mp; Z.div_mod_to_equations; lia).
  assert (Hd : 1 <= doy - (153 * mp + 2) / 5 + 1 <= 31)
    by (subst mp; Z.div_mod_to_equations; lia).
  clearbody mp. split; [|exact Hd].
  destruct (Z.ltb_spec mp 10); lia.
Qed.

(** Between day -354285 (1000-01-01) and day 2932896 (9999-12-31) the
    year has four digits. *)
Lemma civil_from_days_year days y m d :
  -354285 <= days < 2932897 ->
  civil_from_days days = (y, m, d) -> 1000 <= y <= 9999.
Proof.
  unfold civil_from_days. cbv zeta.
  set (era := (days + 719468) / 146097).
  set (doe := (days + 719468) mod 146097).
  set (yoe := (doe - doe / 1460 + doe / 36524 - doe / 146096) / 365).
  set (doy := doe - (365 * yoe + yoe / 4 - yoe / 100)).
  set (mp := (5 * doy + 2) / 153).
  intros Hd [= <- <- <-].
  assert (Hdoe : 0 <= doe < 146097) by (apply Z.mod_pos_bound; lia).
  assert (Hera : days + 719468 = 146097 * era + doe) by (apply Z.div_mod; lia).
  clearbody era doe.
  destruct (Z.ltb_spec mp 10) as [Hlt|Hge];
    [destruct (Z.leb_spec (mp + 3) 2) | destruct (Z.leb_spec (mp - 9) 2)].
  all: subst mp doy yoe; Z.div_mod_to_equations; lia.
Qed.

(** [civil_from_days] yields the date that has the given day number. *)
Lemma days_from_civil_from_days days :
  days_from_civil (civil_from_days days) = days.
Proof.
  unfold civil_from_days, days_from_civil. cbv zeta.
  set (era := (days + 719468) / 146097).
  set (doe := (days + 719468) mod 146097).
  set (yoe := (doe - doe / 1460 + doe / 36524 - doe / 146096) / 365).
  set (doy := doe - (365 * yoe + yoe / 4 - yoe / 100)).
  set (mp := (5 * doy + 2) / 153).
  assert (Hdoe : 0 <= doe < 146097) by (apply Z.mod_pos_bound; lia).
  assert (Hera : days + 719468 = 146097 * era + doe) by (apply Z.div_mod; lia).
  assert (Hyoe : 0 <= yoe <= 399)
    by (subst yoe; clearbody doe; Z.div_mod_to_equations; lia).
  assert (Hdoy : 0 <= doy <= 365)
    by (subst doy yoe; clearbody doe; Z.div_mod_to_equations; lia).
  assert (Hmp : 0 <= mp <= 11)
    by (subst mp; clearbody doy; Z.div_mod_to_equations; lia).
  assert (Hmpd : (153 * mp + 2) / 5 + (doy - (153 * mp + 2) / 5 + 1) - 1 = doy)
    by lia.
  clearbody era doe.
  destruct (Z.ltb_spec mp 10) as [Hlt|Hge].
  - replace (mp + 3 <=? 2) with false by (symmetry; apply Z.leb_gt; lia).
    replace (2 <? mp + 3) with true by (symmetry; apply Z.ltb_lt; lia).
    replace (mp + 3 - 3) with mp by lia. rewrite Hmpd.
    replace (yoe + era * 400 + 0) with (yoe + era * 400) by lia.
    rewrite Z.div_add, Z.mod_add by lia.
    rewrite Z.div_small, Z.mod_small by lia. subst doy. lia.
  - replace (mp - 9 <=? 2) with true by (symmetry; apply Z.leb_le; lia).
    replace (2 <? mp - 9) with false by (symmetry; apply Z.ltb_ge; lia).
    replace (mp - 9 + 9) with mp by lia. rewrite Hmpd.
    replace (yoe + era * 400 + 1 - 1) with (yoe + era * 400) by lia.
    rewrite Z.div_add, Z.mod_add by lia.
    rewrite Z.div_small, Z.mod_small by lia. subst doy. lia.
Qed.

Example gmtime_epoch :
  iso8601 <$> gmtime 0 = Some (lit "1970-01-01T00:00:00Z").
Proof. reflexivity. Qed.

Example gmtime_leap_day :
  iso8601 <$> gmtime 951868799 = Some (lit "2000-02-29T23:59:59Z").
Proof. reflexivity. Qed.

Example gmtime_before_epoch :
  iso8601 <$> gmtime (-1) = Some (lit "1969-12-31T23:59:59Z").
Proof. reflexivity. Qed.

Example gmtime_year_10000 :
  iso8601 <$> gmtime 253402300800 = Some (lit "10000-01-01T00:00:00Z").
Proof. reflexivity. Qed.

Example gmtime_overflow : gmtime (2 ^ 56) = None.
Proof. reflexivity. Qed.

(** The ranges of the fields [gmtime] fills in. *)
Lemma gmtime_fields now t :
  gmtime now = Some t ->
  0 <= tm_sec t <= 59 /\ 0 <= tm_min t <= 59 /\ 0 <= tm_hour t <= 23 /\
  1 <= tm_mday t <= 31 /\ 0 <= tm_mon t <= 11 /\
  INT_MIN <= tm_year t <= INT_MAX.
Proof.
  unfold gmtime.
  destruct (civil_from_days (now / 86400)) as [[y m] d] eqn:E.
  apply civil_from_days_range in E.
  destruct (_ && _) eqn:Hy; [|discriminate].
  apply andb_true_iff in Hy.
  intros [= <-]. cbn [tm_sec tm_min tm_hour tm_mday tm_mon tm_year].
  assert (0 <= now mod 86400 < 86400) by (apply Z.mod_pos_bound; lia).
  repeat split; try lia.
  all: Z.div_mod_to_equations; lia.
Qed.

Lemma gmtime_four_digit_year now :
  four_digit_year now ->
  exists t, gmtime now = Some t /\ 1000 <= tm_year t + 1900 <= 9999.
Proof.
  intros Hnow. unfold gmtime.
  destruct (civil_from_days (now / 86400)) as [[y m] d] eqn:E.
  apply civil_from_days_year in E.
  2:{ unfold four_digit_year in Hnow. Z.div_mod_to_equations; lia. }
  replace ((INT_MIN <=? y - 1900) && (y - 1900 <=? INT_MAX)) with true
    by (unfold INT_MIN, INT_MAX; symmetry; apply andb_true_iff; lia).
  eexists. split; [reflexivity|]. cbn [tm_year]. lia.
Qed.

End Calendar.

(** ** Formatted output *)

Section Formatting.

Lemma digit_is_digit d : is_digit (digit d) = true.
Proof.
  unfold digit.
  match goal with |- context [nth ?i ?l ?x] =>
    destruct (nth_in_or_default i l x) as [H|H]; revert H;
    generalize (nth i l x) as b end.
  - intros b H. simpl in H. intuition (subst; reflexivity).
  - now intros b ->.
Qed.

Lemma digit_not_nul d : negb (Byte.eqb (digit d) NUL) = true.
Proof.
  pose proof (digit_is_digit d) as H.
  destruct (Byte.eqb (digit d) NUL) eqn:E; [|reflexivity].
  apply byte_eqb_eq in E. rewrite E in H. discriminate.
Qed.

Lemma decimal_lt10 n : n < 10 -> decimal n = [digit n].
Proof.
  intros H. rewrite decimal_equation_1.
  destruct (Z_lt_dec n 10); [reflexivity | lia].
Qed.

Lemma decimal_ge10 n :
  10 <= n -> decimal n = decimal (n / 10) ++ [digit (n mod 10)].
Proof.
  intros H. rewrite decimal_equation_1.
  destruct (Z_lt_dec n 10); [lia | reflexivity].
Qed.

Lemma decimal_no_nul n : no_nul (decimal n) = true.
Proof.
  apply (decimal_elim (fun _ l => no_nul l = true)).
  - intros m _ _. simpl. now rewrite digit_not_nul.
  - intros m _ IH _. rewrite no_nul_app, IH. simpl. now rewrite digit_not_nul.
Qed.

(** A number below [10 ^ k] has at most [k] digits. *)
Lemma decimal_length (k : nat) n :
  (0 < k)%nat -> n < 10 ^ Z.of_nat k -> (length (decimal n) <= k)%nat.
Proof.
  revert n. induction k as [|k IH]; intros n Hk Hn; [lia|].
  destruct (Z_lt_dec n 10) as [Hlt|Hge].
  - rewrite decimal_lt10 by assumption. simpl. lia.
  - rewrite decimal_ge10 by lia. rewrite length_app. simpl.
    destruct k as [|k]; [simpl in Hn; lia|].
    assert (n / 10 < 10 ^ Z.of_nat (S k)).
    { apply Z.div_lt_upper_bound; [lia|].
      rewrite <- Z.pow_succ_r by lia. now rewrite <- Nat2Z.inj_succ. }
    specialize (IH (n / 10)). lia.
Qed.

Lemma decimal_4 n :
  1000 <= n <= 9999 ->
  decimal n = [digit (n / 1000); digit (n / 100 mod 10);
               digit (n / 10 mod 10); digit (n mod 10)].
Proof.
  intros H.
  rewrite (decimal_ge10 n) by lia.
  rewrite (decimal_ge10 (n / 10)) by (Z.div_mod_to_equations; lia).
  rewrite (decimal_ge10 (n / 10 / 10)) by (Z.div_mod_to_equations; lia).
  rewrite decimal_lt10 by (Z.div_mod_to_equations; lia).
  rewrite !Z.div_div by lia. reflexivity.
Qed.

Lemma two_digits_ok n :
  0 <= n <= 99 -> two_digits n = [digit (n / 10); digit (n mod 10)].
Proof.
  intros H. unfold two_digits.
  destruct (Z.ltb_spec n 10) as [Hlt|Hge].
  - replace (0 <=? n) with true by (symmetry; apply Z.leb_le; lia). simpl.
    rewrite Z.div_small, Z.mod_small by lia. reflexivity.
  - rewrite andb_false_r. unfold signed_decimal.
    replace (n <? 0) with false by (symmetry; apply Z.ltb_ge; lia).
    rewrite decimal_ge10 by lia.
    rewrite decimal_lt10 by (Z.div_mod_to_equations; lia). reflexivity.
Qed.

Lemma signed_decimal_no_nul n : no_nul (signed_decimal n) = true.
Proof.
  unfold signed_decimal. destruct (n <? 0); simpl; apply decimal_no_nul.
Qed.

Lemma signed_decimal_int n :
  INT_MIN + 1900 <= n <= INT_MAX + 1900 ->
  (length (signed_decimal n) <= 11)%nat.
Proof.
  unfold INT_MIN, INT_MAX, signed_decimal. intros H.
  destruct (Z.ltb_spec n 0); simpl.
  - pose proof (decimal_length 10 (- n)). lia.
  - pose proof (decimal_length 10 n). lia.
Qed.

(** What [strftime] produces for the fields [gmtime] fills in. *)
Lemma iso8601_gmtime now t :
  gmtime now = Some t ->
  iso8601 t =
    signed_decimal (tm_year t + 1900) ++
    [x2d; digit ((tm_mon t + 1) / 10); digit ((tm_mon t + 1) mod 10);
     x2d; digit (tm_mday t / 10); digit (tm_mday t mod 10);
     x54; digit (tm_hour t / 10); digit (tm_hour t mod 10);
     x3a; digit (tm_min t / 10); digit (tm_min t mod 10);
     x3a; digit (tm_sec t / 10); digit (tm_sec t mod 10);
     x5a].
Proof.
  intros H. apply gmtime_fields in H. unfold iso8601.
  rewrite !two_digits_ok by lia. reflexivity.
Qed.

Lemma iso8601_no_nul now t : gmtime now = Some t -> no_nul (iso8601 t) = true.
Proof.
  intros H. rewrite (iso8601_gmtime _ _ H).
  rewrite no_nul_app, signed_decimal_no_nul. simpl.
  now rewrite !digit_not_nul.
Qed.

Lemma iso8601_length now t :
  gmtime now = Some t -> (length (iso8601 t) <= 27)%nat.
Proof.
  intros H. rewrite (iso8601_gmtime _ _ H).
  apply gmtime_fields in H. rewrite length_app. simpl.
  pose proof (signed_decimal_int (tm_year t + 1900)). lia.
Qed.

(** With a four-digit year the expansion has the shape
    [YYYY-MM-DDTHH:MM:SSZ]. *)
Lemma iso8601_matches now t :
  gmtime now = Some t -> 1000 <= tm_year t + 1900 <= 9999 ->
  matches timestamp_pattern (iso8601 t) = true.
Proof.
  intros H Hy. rewrite (iso8601_gmtime _ _ H).
  unfold signed_decimal.
  replace (tm_year t + 1900 <? 0) with false by (symmetry; apply Z.ltb_ge; lia).
  rewrite decimal_4 by assumption.
  cbn -[digit]. now rewrite !digit_is_digit.
Qed.

End Formatting.

(** ** What a handler does to the process *)

Section Handlers.

Lemma health_response_length ts :
  length (health_response ts) = (85 + length ts)%nat.
Proof.
  unfold health_response, http_response, health_body, quoted.
  repeat rewrite length_app. simpl. lia.
Qed.

Lemma health_response_no_nul ts :
  no_nul ts = true -> no_nul (health_response ts) = true.
Proof.
  intros H. unfold health_response, http_response, health_body, quoted.
  repeat rewrite no_nul_app. rewrite H. reflexivity.
Qed.

(** The single [read]: at most [count] bytes, stored at the start of the
    array, the rest left on the connection. *)
Lemma read_ok mem count p :
  read_error (client p) = None -> 0 <= count <= zlen mem ->
  read mem count p
  = Return (zlen (take (Z.to_nat count) (inbox (client p))),
            blit (take (Z.to_nat count) (inbox (client p))) mem)
           (set_client (mk_conn (drop (Z.to_nat count) (inbox (client p))) None
                                (write_answer (client p)) (outbox (client p))) p).
Proof.
  intros Hr Hc. unfold read. rewrite Hr.
  replace (_ <=? _) with true; [reflexivity|].
  symmetry. apply Z.leb_le. unfold zlen in *. rewrite length_take. lia.
Qed.

(** Terminating what was read makes the buffer denote [until_nul] of it. *)
Lemma terminate_ok data mem :
  (length data < length mem)%nat ->
  exists mem', store (blit data mem) (zlen data) NUL = Done mem' /\
               c_str mem' = Done (until_nul data).
Proof.
  intros H. eexists. split; [now apply store_terminator|].
  apply c_str_terminated.
Qed.

(** [snprintf] of a text that fits, then [strlen]: the array starts with
    the text and [strlen] is its length. *)
Lemma snprintf_fits mem size s :
  no_nul s = true -> zlen s < size -> size <= zlen mem ->
  strlen (snprintf mem size s) = Done (zlen s) /\
  take (Z.to_nat (zlen s)) (snprintf mem size s) = s /\
  zlen s <= zlen (snprintf mem size s).
Proof.
  intros Hs Hlt Hle. unfold snprintf, blit, strlen, zlen in *.
  rewrite (take_ge s) by lia.
  rewrite <- app_assoc. simpl.
  rewrite c_str_terminated, until_nul_no_nul by assumption.
  split; [reflexivity|]. split.
  - rewrite Nat2Z.id. now rewrite take_app_length.
  - rewrite length_app. lia.
Qed.

Lemma strftime_gmtime junk now t :
  gmtime now = Some t ->
  exists n mem, strftime (uninit junk 64) 64 t = (n, Some mem) /\
                c_str mem = Done (iso8601 t).
Proof.
  intros H. unfold strftime.
  pose proof (iso8601_length _ _ H) as Hlen.
  replace (_ <=? _) with true by (symmetry; apply Z.leb_le; unfold zlen; lia).
  do 2 eexists. split; [reflexivity|].
  unfold blit. rewrite <- app_assoc. simpl.
  rewrite c_str_terminated. f_equal.
  apply until_nul_no_nul. now apply (iso8601_no_nul now).
Qed.

Lemma health_format_eq ts : ServerC.health_format ts = health_response ts.
Proof.
  unfold ServerC.health_format, health_response, http_response, health_body, quoted.
  simpl. now rewrite <- !app_assoc.
Qed.
Lemma hello_format_eq : ServerC.hello_format = default_response.
Proof. reflexivity. Qed.
Lemma health_text_eq ts :
  ServerCpp.health_head ++ ts ++ [DQUOTE] ++ lit "}" ++ [LF] = health_response ts.
Proof.
  unfold ServerCpp.health_head, health_response, http_response, health_body, quoted.
  simpl. now rewrite <- !app_assoc.
Qed.
Lemma hello_text_eq : ServerCpp.hello_text = default_response.
Proof. reflexivity. Qed.

Ltac step := cbv beta iota delta [bind lift ret time alloca undefined];
  cbn [clock junk set_client client errno stdout stderr closed inbox outbox
       read_error write_answer].

(** A [write] within the array: the bytes are handed over, and the call
    ends as the environment has it. *)
Lemma write_ok mem n p :
  0 <= n <= zlen mem ->
  write mem n p
  = match write_answer (client p) with
    | Delivered =>
        Return n
          (set_client (mk_conn (inbox (client p)) (read_error (client p))
                               (write_answer (client p))
                               (outbox (client p) ++ take (Z.to_nat n) mem)) p)
    | Refused e =>
        Return (-1)
          (set_errno e
             (set_client (mk_conn (inbox (client p)) (read_error (client p))
                                  (write_answer (client p))
                                  (outbox (client p) ++ take (Z.to_nat n) mem)) p))
    | BrokenPipe =>
        Killed SIGPIPE
          (set_client (mk_conn (inbox (client p)) (read_error (client p))
                               (write_answer (client p))
                               (outbox (client p) ++ take (Z.to_nat n) mem)) p)
    end.
Proof.
  intros H. unfold write.
  replace (_ && _) with true; [reflexivity|].
  symmetry. apply andb_true_iff. split; [apply Z.leb_le | apply Z.leb_le]; lia.
Qed.

(** The [write] that ends a handler, seen from the process before the
    read. *)
Ltac write_ends_handler :=
  unfold delivery, answered;
  cbn [clock junk set_client client errno stdout stderr closed inbox outbox
       read_error write_answer];
  match goal with
  | |- context [write_answer (client ?p)] =>
      destruct (write_answer (client p)); reflexivity
  end.

Lemma health_response_fits now t :
  gmtime now = Some t ->
  no_nul (health_response (iso8601 t)) = true /\
  zlen (health_response (iso8601 t)) < 4096.
Proof.
  intros G. split.
  - apply health_response_no_nul, (iso8601_no_nul _ _ G).
  - unfold zlen. rewrite health_response_length.
    pose proof (iso8601_length _ _ G). lia.
Qed.

Lemma default_response_fits :
  no_nul default_response = true /\ zlen default_response < 4096.
Proof. split; reflexivity. Qed.

(** The end of the C handler: [strlen] of the array [snprintf] filled, then
    [write] of that many bytes. *)
Ltac c_write_response Hfits :=
  match goal with
  | |- context [strlen (snprintf ?mem ?size ?text)] =>
      let Hs := fresh "Hs" in let Ht := fresh "Ht" in let Hz := fresh "Hz" in
      destruct (snprintf_fits mem size text (proj1 Hfits) (proj2 Hfits))
        as (Hs & Ht & Hz);
      [ unfold zlen; rewrite uninit_length; lia
      | rewrite Hs; cbv beta iota;
        rewrite write_ok by (pose proof (zlen_nonneg text); lia);
        rewrite Ht; write_ends_handler ]
  end.

Lemma c_handle_request_readable p :
  read_error (client p) = None ->
  ServerC.handle_request p = respond (classify (received p)) p.
Proof.
  intros Hr.
  cbv beta iota delta [ServerC.handle_request bind alloca ServerC.BUFFER_SIZE].
  change (4096 - 1) with 4095.
  rewrite (read_ok _ _ _ Hr)
    by (unfold zlen; rewrite uninit_length; lia).
  cbv beta iota.
  fold (received p).
  replace (zlen (received p) <? 0) with false
    by (symmetry; apply Z.ltb_ge, zlen_nonneg).
  destruct (terminate_ok (received p) (uninit (junk p "buffer") 4096))
    as (mem & Hst & Hc).
  { unfold received. rewrite uninit_length, length_take. lia. }
  rewrite Hst. step. rewrite Hc. step.
  unfold classify, health_probe.
  destruct (strstr (until_nul (received p)) (lit "GET /health")); step;
    unfold respond, response_for.
  - destruct (gmtime (clock p)) as [t|] eqn:G; [|reflexivity].
    destruct (strftime_gmtime (junk p "timestamp") _ _ G) as (len & ts & Hs & Hts).
    rewrite Hs, Hts. cbv beta iota. rewrite health_format_eq.
    c_write_response (health_response_fits _ _ G).
  - rewrite hello_format_eq.
    c_write_response default_response_fits.
Qed.

(** The scenario of the specification: the request line of a health check
    at 2024-01-01T00:00:00Z. *)
Example c_health_scenario :
  ServerC.handle_request health_run
  = Return tt
      (answered
         (lit "HTTP/1.1 200 OK" ++ CRLF ++
          lit "Content-Type: application/json" ++ CRLF ++ CRLF ++
          lit "{" ++ quoted (lit "status") ++ lit ": " ++ quoted (lit "ok") ++
          lit ", " ++ quoted (lit "timestamp") ++ lit ": " ++
          quoted (lit "2024-01-01T00:00:00Z") ++ lit "}" ++ [LF])
         health_run).
Proof. vm_compute. reflexivity. Qed.

Lemma c_handle_request_read_error p e :
  read_error (client p) = Some e ->
  ServerC.handle_request p = Return tt (log_stderr (Perror "read" e) (set_errno e p)).
Proof.
  intros Hr.
  cbv beta iota zeta
      delta [ServerC.handle_request bind alloca ServerC.BUFFER_SIZE read].
  rewrite Hr. reflexivity.
Qed.

Lemma cpp_handle_request_readable p :
  read_error (client p) = None ->
  ServerCpp.handle_request p = respond (classify (received p)) p.
Proof.
  intros Hr.
  cbv beta iota delta [ServerCpp.handle_request bind alloca ServerCpp.BUFFER_SIZE].
  change (4096 - 1) with 4095.
  rewrite (read_ok _ _ _ Hr)
    by (unfold zlen; rewrite uninit_length; lia).
  cbv beta iota.
  fold (received p).
  replace (zlen (received p) <? 0) with false
    by (symmetry; apply Z.ltb_ge, zlen_nonneg).
  destruct (terminate_ok (received p) (uninit (junk p "buffer") 4096))
    as (mem & Hst & Hc).
  { unfold received. rewrite uninit_length, length_take. lia. }
  rewrite Hst. step. rewrite Hc. step.
  rewrite find_strstr.
  unfold classify, health_probe.
  destruct (strstr (until_nul (received p)) (lit "GET /health")); step;
    unfold respond, response_for.
  - unfold ServerCpp.get_timestamp, ServerCpp.put_time. step.
    destruct (gmtime (clock p)) as [t|] eqn:G; [|reflexivity].
    rewrite health_text_eq.
    rewrite write_ok by (unfold zlen; rewrite length_app; simpl; lia).
    unfold zlen. rewrite Nat2Z.id, take_app_length. write_ends_handler.
  - rewrite hello_text_eq.
    rewrite write_ok by (unfold zlen; rewrite length_app; simpl; lia).
    unfold zlen. rewrite Nat2Z.id, take_app_length. write_ends_handler.
Qed.

Lemma cpp_handle_request_read_error p e :
  read_error (client p) = Some e ->
  ServerCpp.handle_request p
  = Return tt (log_stderr (Cerr "Error reading from socket") (set_errno e p)).
Proof.
  intros Hr.
  cbv beta iota zeta
      delta [ServerCpp.handle_request bind alloca ServerCpp.BUFFER_SIZE read].
  rewrite Hr. reflexivity.
Qed.

End Handlers.

(** ** The accept loop *)

Section AcceptLoop.

Lemma c_handle_request_serve c now stack p :
  match serve c now with
  | Closed c' =>
      exists p', ServerC.handle_request (entered c now stack p) = Return tt p' /\
                 client p' = c' /\ closed p' = closed p /\ stdout p' = stdout p /\
                 stderr p' = stderr p ++ c_report (Incoming 0 c now stack)
  | Broken s =>
      exists p', ServerC.handle_request (entered c now stack p) = Killed s p' /\
                 closed p' = closed p /\ stdout p' = stdout p /\
                 stderr p' = stderr p
  | Faulty f => ServerC.handle_request (entered c now stack p) = Undefined f
  end.
Proof.
  unfold serve, c_report. destruct (read_error c) as [e|] eqn:Hr.
  - rewrite (c_handle_request_read_error _ e) by exact Hr.
    eexists. split; [reflexivity|]. cbn. destruct c; cbn in *. now rewrite Hr.
  - rewrite c_handle_request_readable by exact Hr.
    unfold respond, delivery, received. cbn [clock client entered].
    destruct (response_for _ now); [|reflexivity].
    destruct c as [i r [|e|] o]; cbn [write_answer];
      (eexists; split; [reflexivity|]); cbn; now rewrite ?app_nil_r.
Qed.

Lemma c_accept_error e evs p :
  ServerC.accept_loop (AcceptError e :: evs) p
  = ServerC.accept_loop evs (log_stderr (Perror "accept" e) (set_errno e p)).
Proof. reflexivity. Qed.

Lemma c_accept_incoming fd c now stack evs p :
  ServerC.accept_loop (Incoming fd c now stack :: evs) p
  = bind ServerC.handle_request
      (fun _ => bind close (fun _ => ServerC.accept_loop evs))
      (entered c now stack p).
Proof.
  cbn [ServerC.accept_loop]. unfold bind at 1. cbn [accept].
  replace (Z.of_N fd <? 0) with false by (symmetry; apply Z.ltb_ge; lia).
  reflexivity.
Qed.

(** When every connection is served, the loop is left waiting. *)
Lemma c_accept_loop_serves evs :
  forall p l,
    served evs = Closed l ->
    exists p', ServerC.accept_loop evs p = Waiting p' /\
               closed p' = closed p ++ l /\ stdout p' = stdout p /\
               stderr p' = stderr p ++ flat_map c_report evs.
Proof.
  induction evs as [|[e|fd c now stack] evs IH]; intros p l Hl.
  - injection Hl as <-. exists p. cbn. now rewrite !app_nil_r.
  - rewrite c_accept_error.
    destruct (IH (log_stderr (Perror "accept" e) (set_errno e p)) l Hl)
      as (p' & -> & Hc & Ho & He).
    exists p'. split; [reflexivity|]. cbn in *. now rewrite He, <- app_assoc.
  - rewrite c_accept_incoming. cbn [served] in Hl.
    pose proof (c_handle_request_serve c now stack p) as Hh.
    destruct (serve c now) as [c'|s|f]; [|discriminate|discriminate].
    destruct (served evs) as [l'|s|f] eqn:Hs; [|discriminate|discriminate].
    injection Hl as <-.
    destruct Hh as (p1 & Hh & Hc1 & Hcl & Ho & He).
    unfold bind at 1. rewrite Hh. unfold bind at 1. cbn [close].
    match goal with |- context [ServerC.accept_loop evs ?q] =>
      destruct (IH q l' eq_refl) as (p' & -> & Hc & Ho' & He') end.
    exists p'. split; [reflexivity|]. cbn in *.
    rewrite Hc, Ho', He', Hcl, Hc1, Ho, He.
    repeat split; try reflexivity; now rewrite <- !app_assoc.
Qed.

(** When a signal ends the process in a handler, the connections before
    that one have been served and closed, and no later one is accepted. *)
Lemma c_accept_loop_broken evs :
  forall p s,
    served evs = Broken s ->
    exists l p', served (before_stop evs) = Closed l /\
                 ServerC.accept_loop evs p = Killed s p' /\
                 closed p' = closed p ++ l /\ stdout p' = stdout p /\
                 stderr p' = stderr p ++ flat_map c_report (before_stop evs).
Proof.
  induction evs as [|[e|fd c now stack] evs IH]; intros p s Hs.
  - discriminate.
  - rewrite c_accept_error.
    destruct (IH (log_stderr (Perror "accept" e) (set_errno e p)) s Hs)
      as (l & p' & Hl & -> & Hc & Ho & He).
    exists l, p'. cbn in *. rewrite He, <- app_assoc. auto.
  - rewrite c_accept_incoming. cbn [served before_stop] in *.
    pose proof (c_handle_request_serve c now stack p) as Hh.
    unfold bind at 1.
    destruct (serve c now) as [c'|s'|f] eqn:Hc'; [| |discriminate].
    + destruct Hh as (p1 & -> & Hc1 & Hcl & Ho & He).
      destruct (served evs) as [l'|s''|f] eqn:Hse; [discriminate| |discriminate].
      injection Hs as ->. unfold bind at 1. cbn [close].
      match goal with |- context [ServerC.accept_loop evs ?q] =>
        destruct (IH q s eq_refl) as (l & p' & Hl & -> & Hc & Ho' & He') end.
      exists (c' :: l), p'. cbn [served]. rewrite Hc', Hl. cbn in *.
      rewrite Hc, Ho', He', Hcl, Hc1, Ho, He.
      repeat split; try reflexivity; now rewrite <- !app_assoc.
    + injection Hs as ->. destruct Hh as (p1 & -> & Hcl & Ho & He).
      exists [], p1. cbn. rewrite !app_nil_r. auto.
Qed.

(** When a handler leaves the defined behaviour, so does the loop. *)
Lemma c_accept_loop_crash evs :
  forall p f, served evs = Faulty f -> ServerC.accept_loop evs p = Undefined f.
Proof.
  induction evs as [|[e|fd c now stack] evs IH]; intros p f Hf.
  - discriminate.
  - rewrite c_accept_error. now apply IH.
  - rewrite c_accept_incoming. cbn [served] in Hf.
    pose proof (c_handle_request_serve c now stack p) as Hh.
    unfold bind at 1.
    destruct (serve c now) as [c'|s|f'].
    + destruct Hh as (p1 & -> & _).
      destruct (served evs) as [l'|s|f''] eqn:Hs; [discriminate|discriminate|].
      injection Hf as ->. unfold bind at 1. cbn [close]. now apply IH.
    + discriminate.
    + injection Hf as ->. now rewrite Hh.
Qed.

Lemma cpp_handle_request_serve c now stack p :
  match serve c now with
  | Closed c' =>
      exists p', ServerCpp.handle_request (entered c now stack p) = Return tt p' /\
                 client p' = c' /\ closed p' = closed p /\ stdout p' = stdout p /\
                 stderr p' = stderr p ++ cpp_report (Incoming 0 c now stack)
  | Broken s =>
      exists p', ServerCpp.handle_request (entered c now stack p) = Killed s p' /\
                 closed p' = closed p /\ stdout p' = stdout p /\
                 stderr p' = stderr p
  | Faulty f => ServerCpp.handle_request (entered c now stack p) = Undefined f
  end.
Proof.
  unfold serve, cpp_report. destruct (read_error c) as [e|] eqn:Hr.
  - rewrite (cpp_handle_request_read_error _ e) by exact Hr.
    eexists. split; [reflexivity|]. cbn. destruct c; cbn in *. now rewrite Hr.
  - rewrite cpp_handle_request_readable by exact Hr.
    unfold respond, delivery, received. cbn [clock client entered].
    destruct (response_for _ now); [|reflexivity].
    destruct c as [i r [|e|] o]; cbn [write_answer];
      (eexists; split; [reflexivity|]); cbn; now rewrite ?app_nil_r.
Qed.

Lemma cpp_accept_error e evs p :
  ServerCpp.accept_loop (AcceptError e :: evs) p
  = ServerCpp.accept_loop evs (log_stderr (Cerr "Accept failed") (set_errno e p)).
Proof. reflexivity. Qed.

Lemma cpp_accept_incoming fd c now stack evs p :
  ServerCpp.accept_loop (Incoming fd c now stack :: evs) p
  = bind ServerCpp.handle_request
      (fun _ => bind close (fun _ => ServerCpp.accept_loop evs))
      (entered c now stack p).
Proof.
  cbn [ServerCpp.accept_loop]. unfold bind at 1. cbn [accept].
  replace (Z.of_N fd <? 0) with false by (symmetry; apply Z.ltb_ge; lia).
  reflexivity.
Qed.

(** When every connection is served, the loop is left waiting. *)
Lemma cpp_accept_loop_serves evs :
  forall p l,
    served evs = Closed l ->
    exists p', ServerCpp.accept_loop evs p = Waiting p' /\
               closed p' = closed p ++ l /\ stdout p' = stdout p /\
               stderr p' = stderr p ++ flat_map cpp_report evs.
Proof.
  induction evs as [|[e|fd c now stack] evs IH]; intros p l Hl.
  - injection Hl as <-. exists p. cbn. now rewrite !app_nil_r.
  - rewrite cpp_accept_error.
    destruct (IH (log_stderr (Cerr "Accept failed") (set_errno e p)) l Hl)
      as (p' & -> & Hc & Ho & He).
    exists p'. split; [reflexivity|]. cbn in *. now rewrite He, <- app_assoc.
  - rewrite cpp_accept_incoming. cbn [served] in Hl.
    pose proof (cpp_handle_request_serve c now stack p) as Hh.
    destruct (serve c now) as [c'|s|f]; [|discriminate|discriminate].
    destruct (served evs) as [l'|s|f] eqn:Hs; [|discriminate|discriminate].
    injection Hl as <-.
    destruct Hh as (p1 & Hh & Hc1 & Hcl & Ho & He).
    unfold bind at 1. rewrite Hh. unfold bind at 1. cbn [close].
    match goal with |- context [ServerCpp.accept_loop evs ?q] =>
      destruct (IH q l' eq_refl) as (p' & -> & Hc & Ho' & He') end.
    exists p'. split; [reflexivity|]. cbn in *.
    rewrite Hc, Ho', He', Hcl, Hc1, Ho, He.
    repeat split; try reflexivity; now rewrite <- !app_assoc.
Qed.

(** When a signal ends the process in a handler, the connections before
    that one have been served and closed, and no later one is accepted. *)
Lemma cpp_accept_loop_broken evs :
  forall p s,
    served evs = Broken s ->
    exists l p', served (before_stop evs) = Closed l /\
                 ServerCpp.accept_loop evs p = Killed s p' /\
                 closed p' = closed p ++ l /\ stdout p' = stdout p /\
                 stderr p' = stderr p ++ flat_map cpp_report (before_stop evs).
Proof.
  induction evs as [|[e|fd c now stack] evs IH]; intros p s Hs.
  - discriminate.
  - rewrite cpp_accept_error.
    destruct (IH (log_stderr (Cerr "Accept failed") (set_errno e p)) s Hs)
      as (l & p' & Hl & -> & Hc & Ho & He).
    exists l, p'. cbn in *. rewrite He, <- app_assoc. auto.
  - rewrite cpp_accept_incoming. cbn [served before_stop] in *.
    pose proof (cpp_handle_request_serve c now stack p) as Hh.
    unfold bind at 1.
    destruct (serve c now) as [c'|s'|f] eqn:Hc'; [| |discriminate].
    + destruct Hh as (p1 & -> & Hc1 & Hcl & Ho & He).
      destruct (served evs) as [l'|s''|f] eqn:Hse; [discriminate| |discriminate].
      injection Hs as ->. unfold bind at 1. cbn [close].
      match goal with |- context [ServerCpp.accept_loop evs ?q] =>
        destruct (IH q s eq_refl) as (l & p' & Hl & -> & Hc & Ho' & He') end.
      exists (c' :: l), p'. cbn [served]. rewrite Hc', Hl. cbn in *.
      rewrite Hc, Ho', He', Hcl, Hc1, Ho, He.
      repeat split; try reflexivity; now rewrite <- !app_assoc.
    + injection Hs as ->. destruct Hh as (p1 & -> & Hcl & Ho & He).
      exists [], p1. cbn. rewrite !app_nil_r. auto.
Qed.

(** When a handler leaves the defined behaviour, so does the loop. *)
Lemma cpp_accept_loop_crash evs :
  forall p f, served evs = Faulty f -> ServerCpp.accept_loop evs p = Undefined f.
Proof.
  induction evs as [|[e|fd c now stack] evs IH]; intros p f Hf.
  - discriminate.
  - rewrite cpp_accept_error. now apply IH.
  - rewrite cpp_accept_incoming. cbn [served] in Hf.
    pose proof (cpp_handle_request_serve c now stack p) as Hh.
    unfold bind at 1.
    destruct (serve c now) as [c'|s|f'].
    + destruct Hh as (p1 & -> & _).
      destruct (served evs) as [l'|s|f''] eqn:Hs; [discriminate|discriminate|].
      injection Hf as ->. unfold bind at 1. cbn [close]. now apply IH.
    + discriminate.
    + injection Hf as ->. now rewrite Hh.
Qed.

End AcceptLoop.

(** ** Startup *)

Section Startup.

Lemma of_N_not_negative v : (Z.of_N v <? 0) = false.
Proof. apply Z.ltb_ge. lia. Qed.

Lemma c_main_fails su evs p call e :
  first_failure su = Some (call, e) ->
  exists p', ServerC.main su evs p = Exited 1 p' /\
             stderr p' = stderr p ++ [Perror (c_prefix call) e] /\
             stdout p' = stream_flush (stdout p) /\ closed p' = closed p.
Proof.
  destruct su as [[fd|e1] [o|e2] [b|e3] [l|e4]]; unfold first_failure; cbn;
    intros [= <- <-] || intros [=];
    unfold ServerC.main, bind; cbn; rewrite ?of_N_not_negative; cbn;
    eexists; (split; [reflexivity|]); cbn; auto.
Qed.

Lemma cpp_main_fails su evs p call e :
  first_failure su = Some (call, e) ->
  exists p', ServerCpp.main su evs p = Return 1 p' /\
             stderr p' = stderr p ++ [Cerr (cpp_message call)] /\
             stdout p' = stdout p /\ closed p' = closed p.
Proof.
  destruct su as [[fd|e1] [o|e2] [b|e3] [l|e4]]; unfold first_failure; cbn;
    intros [= <- <-] || intros [=];
    unfold ServerCpp.main, bind; cbn; rewrite ?of_N_not_negative; cbn;
    eexists; (split; [reflexivity|]); cbn; auto.
Qed.

Lemma c_main_started su evs p :
  first_failure su = None ->
  ServerC.main su evs p
  = bind (ServerC.accept_loop evs) (fun _ => ret 0)
      (listening c_says su p).
Proof.
  destruct su as [[fd|e1] [o|e2] [b|e3] [l|e4]]; unfold first_failure; cbn;
    intros [=];
    unfold ServerC.main;
    repeat (unfold bind at 1;
            cbn [syscall printf cout endl su_socket su_setsockopt su_bind su_listen];
            rewrite ?of_N_not_negative);
    reflexivity.
Qed.

Lemma cpp_main_started su evs p :
  first_failure su = None ->
  ServerCpp.main su evs p
  = bind (ServerCpp.accept_loop evs) (fun _ => ret 0)
      (listening cpp_says su p).
Proof.
  destruct su as [[fd|e1] [o|e2] [b|e3] [l|e4]]; unfold first_failure; cbn;
    intros [=];
    unfold ServerCpp.main;
    repeat (unfold bind at 1;
            cbn [syscall printf cout endl su_socket su_setsockopt su_bind su_listen];
            rewrite ?of_N_not_negative);
    reflexivity.
Qed.

End Startup.

(** ** Routes *)

Section Routes.

Lemma contains_until_nul needle s :
  contains needle (until_nul s) -> contains needle s.
Proof.
  intros (pre & post & H). destruct (until_nul_prefix s) as [rest Hs].
  exists pre, (post ++ rest). rewrite Hs at 1. rewrite H.
  now rewrite <- !app_assoc.
Qed.

Lemma classify_health bytes :
  classify bytes = Health <-> contains health_probe (until_nul bytes).
Proof.
  unfold classify. rewrite <- strstr_contains.
  destruct (strstr (until_nul bytes) health_probe) as [i|]; split; intros H;
    try reflexivity; try discriminate.
  - now exists i.
  - destruct H as [i H]. discriminate.
Qed.

Lemma classify_default bytes :
  classify bytes = Default <-> ~ contains health_probe (until_nul bytes).
Proof.
  rewrite <- classify_health. destruct (classify bytes); split; intros H;
    try reflexivity; try discriminate; try congruence.
Qed.

Lemma health_is_not_default ts : health_response ts <> default_response.
Proof.
  unfold health_response, default_response, http_response. simpl. discriminate.
Qed.

(** The two routes are told apart by what they do. *)
Lemma delivery_inj resp1 resp2 p :
  delivery resp1 p = delivery resp2 p -> resp1 = resp2.
Proof.
  unfold delivery, answered.
  destruct (write_answer (client p)); intros [= H]; now apply app_inv_head in H.
Qed.

Lemma respond_route_inj r1 r2 p : respond r1 p = respond r2 p -> r1 = r2.
Proof.
  destruct r1, r2; try reflexivity; unfold respond, response_for;
    destruct (gmtime (clock p)); try discriminate;
    try (unfold delivery; destruct (write_answer (client p)); discriminate);
    intros H; apply delivery_inj in H; [|symmetry in H];
    now apply health_is_not_default in H.
Qed.

Lemma not_contains_by_strstr needle s :
  strstr s needle = None -> ~ contains needle s.
Proof.
  intros H Hc. apply strstr_contains in Hc. rewrite H in Hc. now destruct Hc.
Qed.

End Routes.

(** ** The loop as a whole *)

Section Loop.



(** Each connection ends as [serve] leaves it, in order of arrival. *)
Lemma served_each evs l :
  served evs = Closed l ->
  Forall2 (fun cn c' => serve cn.1 cn.2 = Closed c') (connections evs) l.
Proof.
  revert l. induction evs as [|[e|fd c now stack] evs IH]; intros l;
    cbn [served connections].
  - intros [= <-]. constructor.
  - apply IH.
  - destruct (serve c now) as [c'|s|f] eqn:Hc; [|discriminate|discriminate].
    destruct (served evs) as [l'|s|f]; [|discriminate|discriminate].
    intros [= <-]. constructor; [exact Hc | now apply IH].
Qed.



Lemma before_stop_all evs l : served evs = Closed l -> before_stop evs = evs.
Proof.
  revert l. induction evs as [|[e|fd c now stack] evs IH]; intros l;
    cbn [served before_stop].
  - reflexivity.
  - intros H. f_equal. now apply (IH l).
  - destruct (serve c now); [|discriminate|discriminate].
    destruct (served evs) as [l'| |]; [|discriminate|discriminate].
    intros _. f_equal. now apply (IH l').
Qed.

Lemma before_stop_prefix evs : exists rest, evs = before_stop evs ++ rest.
Proof.
  induction evs as [|[e|fd c now stack] evs [rest IH]]; cbn [before_stop].
  - now exists [].
  - exists rest. cbn. now rewrite <- IH.
  - destruct (serve c now); [|now eexists|now eexists].
    exists rest. cbn. now rewrite <- IH.
Qed.

Lemma c_accept_loop_waits evs p p' :
  ServerC.accept_loop evs p = Waiting p' ->
  exists l, served evs = Closed l /\ closed p' = closed p ++ l /\
            stderr p' = stderr p ++ flat_map c_report evs.
Proof.
  intros H. destruct (served evs) as [l|s|f] eqn:Hs.
  - destruct (c_accept_loop_serves evs p l Hs) as (q & Hq & Hc & _ & He).
    rewrite Hq in H. injection H as <-. now exists l.
  - destruct (c_accept_loop_broken evs p s Hs) as (l & q & _ & Hq & _).
    rewrite Hq in H. discriminate.
  - rewrite (c_accept_loop_crash evs p f Hs) in H. discriminate.
Qed.

Lemma cpp_accept_loop_waits evs p p' :
  ServerCpp.accept_loop evs p = Waiting p' ->
  exists l, served evs = Closed l /\ closed p' = closed p ++ l /\
            stderr p' = stderr p ++ flat_map cpp_report evs.
Proof.
  intros H. destruct (served evs) as [l|s|f] eqn:Hs.
  - destruct (cpp_accept_loop_serves evs p l Hs) as (q & Hq & Hc & _ & He).
    rewrite Hq in H. injection H as <-. now exists l.
  - destruct (cpp_accept_loop_broken evs p s Hs) as (l & q & _ & Hq & _).
    rewrite Hq in H. discriminate.
  - rewrite (cpp_accept_loop_crash evs p f Hs) in H. discriminate.
Qed.

(** [main] does not exit once the loop is entered: a run over finitely many
    answers to [accept] is left waiting for the next, unless a signal ended
    it or a handler left the defined behaviour. *)
Lemma c_main_no_exit su evs p :
  first_failure su = None -> exit_status (ServerC.main su evs p) = None.
Proof.
  intros H. rewrite (c_main_started _ _ _ H). unfold bind.
  destruct (served evs) as [l|s|f] eqn:Hs.
  - now destruct (c_accept_loop_serves evs (listening c_says su p)
      l Hs) as (q & -> & _).
  - now destruct (c_accept_loop_broken evs (listening c_says su p)
      s Hs) as (l & q & _ & -> & _).
  - now rewrite (c_accept_loop_crash evs _ f Hs).
Qed.

Lemma cpp_main_no_exit su evs p :
  first_failure su = None -> exit_status (ServerCpp.main su evs p) = None.
Proof.
  intros H. rewrite (cpp_main_started _ _ _ H). unfold bind.
  destruct (served evs) as [l|s|f] eqn:Hs.
  - now destruct (cpp_accept_loop_serves evs (listening cpp_says su p)
      l Hs) as (q & -> & _).
  - now destruct (cpp_accept_loop_broken evs (listening cpp_says su p)
      s Hs) as (l & q & _ & -> & _).
  - now rewrite (cpp_accept_loop_crash evs _ f Hs).
Qed.

End Loop.

(** ** Timestamps read back *)

Section Timestamps.

Lemma digit_value_digit d : 0 <= d <= 9 -> digit_value (digit d) = d.
Proof.
  intros H.
  assert (d = 0 \/ d = 1 \/ d = 2 \/ d = 3 \/ d = 4 \/
          d = 5 \/ d = 6 \/ d = 7 \/ d = 8 \/ d = 9) as Hd by lia.
  repeat (destruct Hd as [-> | Hd]; [reflexivity|]). now subst.
Qed.

Lemma number_2 a b :
  0 <= a <= 9 -> 0 <= b <= 9 -> number [digit a; digit b] = 10 * a + b.
Proof.
  intros Ha Hb. unfold number. cbn [fold_left].
  rewrite !digit_value_digit by assumption. lia.
Qed.

Lemma number_two_digits n :
  0 <= n <= 99 -> number [digit (n / 10); digit (n mod 10)] = n.
Proof.
  intros H. rewrite number_2 by (Z.div_mod_to_equations; lia).
  Z.div_mod_to_equations; lia.
Qed.

Lemma number_four_digits n :
  1000 <= n <= 9999 ->
  number [digit (n / 1000); digit (n / 100 mod 10);
          digit (n / 10 mod 10); digit (n mod 10)] = n.
Proof.
  intros H. unfold number. cbn [fold_left].
  rewrite !digit_value_digit by (Z.div_mod_to_equations; lia).
  Z.div_mod_to_equations; lia.
Qed.

(** The timestamp of a clock reading with a four-digit year reads back as
    that clock reading. *)
Lemma parse_iso8601 now t :
  four_digit_year now -> gmtime now = Some t ->
  parse_timestamp (iso8601 t) = Some now.
Proof.
  intros Hy Ht.
  destruct (gmtime_four_digit_year now Hy) as (t' & Ht' & Hyear).
  rewrite Ht in Ht'. injection Ht' as <-.
  pose proof (gmtime_fields _ _ Ht) as Hf.
  rewrite (iso8601_gmtime _ _ Ht). unfold signed_decimal.
  replace (tm_year t + 1900 <? 0) with false by (symmetry; apply Z.ltb_ge; lia).
  rewrite decimal_4 by assumption.
  cbn [app parse_timestamp].
  rewrite number_four_digits by assumption.
  rewrite !number_two_digits by lia.
  f_equal. clear Hf Hyear Hy.
  unfold gmtime in Ht.
  destruct (civil_from_days (now / 86400)) as [[y m] d] eqn:E.
  destruct (_ && _); [|discriminate]. injection Ht as <-.
  cbn [tm_sec tm_min tm_hour tm_mday tm_mon tm_year].
  replace (y - 1900 + 1900) with y by lia.
  replace (m - 1 + 1) with m by lia.
  rewrite <- E, days_from_civil_from_days.
  Z.div_mod_to_equations; lia.
Qed.

End Timestamps.

(** ** Prefixes *)

Section More.

Lemma contains_take needle (n : nat) s :
  contains needle (take n s) -> contains needle s.
Proof.
  intros (pre & post & H). exists pre, (post ++ drop n s).
  rewrite <- (take_drop n s) at 1. rewrite H. now rewrite <- !app_assoc.
Qed.

Lemma until_nul_app_no_nul a b :
  no_nul a = true -> until_nul (a ++ b) = a ++ until_nul b.
Proof.
  induction a as [|x a IH]; simpl; [reflexivity|].
  destruct (Byte.eqb x NUL); simpl; [discriminate|].
  intros H. now rewrite IH.
Qed.

End More.

(** ** The standard output stream *)

Section Streams.

Lemma through_last_newline_line l :
  through_last_newline (l ++ [LF]) = (l ++ [LF], []).
Proof.
  induction l as [|b l IH]; [reflexivity|].
  cbn [app through_last_newline]. rewrite IH.
  now destruct l.
Qed.

Lemma through_last_newline_app l :
  (through_last_newline l).1 ++ (through_last_newline l).2 = l.
Proof.
  induction l as [|b l IH]; [reflexivity|].
  cbn [through_last_newline].
  destruct (through_last_newline l) as [[|x lines] rest]; cbn in *.
  - destruct (Byte.eqb b LF); cbn; now rewrite IH.
  - now rewrite IH.
Qed.

(** Everything put on a stream and then flushed has reached the
    descriptor, in order. *)
Lemma stream_flush_put l s :
  flushed (stream_flush (stream_put l s)) = flushed s ++ pending s ++ l /\
  pending (stream_flush (stream_put l s)) = [] /\
  on_terminal (stream_flush (stream_put l s)) = on_terminal s.
Proof.
  unfold stream_flush, stream_put. destruct (on_terminal s) eqn:Ht.
  - pose proof (through_last_newline_app (pending s ++ l)) as H.
    destruct (through_last_newline (pending s ++ l)) as [lines rest].
    cbn in *. now rewrite <- app_assoc, H.
  - cbn. auto.
Qed.

Lemma stream_put_put l1 l2 s :
  stream_flush (stream_put l2 (stream_put l1 s))
  = stream_flush (stream_put (l1 ++ l2) s).
Proof.
  unfold stream_flush, stream_put. destruct (on_terminal s) eqn:Ht.
  - pose proof (through_last_newline_app (pending s ++ l1)) as H1.
    pose proof (through_last_newline_app (pending s ++ l1 ++ l2)) as H12.
    destruct (through_last_newline (pending s ++ l1)) as [lines1 rest1].
    cbn [on_terminal pending flushed].
    pose proof (through_last_newline_app (rest1 ++ l2)) as H2.
    destruct (through_last_newline (rest1 ++ l2)) as [lines2 rest2].
    destruct (through_last_newline (pending s ++ l1 ++ l2)) as [lines rest].
    cbn in *. f_equal.
    rewrite <- !app_assoc, H2, H12. rewrite (app_assoc lines1), H1.
    now rewrite <- !app_assoc.
  - cbn. now rewrite <- !app_assoc.
Qed.

Lemma c_banner_text :
  ServerC.banner = lit "C server listening on port 8080" ++ [LF].
Proof. vm_compute. reflexivity. Qed.

Lemma cpp_banner_text :
  lit "C++ server listening on port " ++ signed_decimal ServerCpp.PORT ++ [LF]
  = lit "C++ server listening on port 8080" ++ [LF].
Proof. vm_compute. reflexivity. Qed.

(** What server.c leaves on a stream with an empty buffer. *)
Lemma c_says_empty_buffer s :
  pending s = [] ->
  if on_terminal s
  then flushed (c_says s) = flushed s ++ lit "C server listening on port 8080" ++ [LF] /\
       pending (c_says s) = []
  else flushed (c_says s) = flushed s /\
       pending (c_says s) = lit "C server listening on port 8080" ++ [LF].
Proof.
  intros Hp. unfold c_says, stream_put. rewrite Hp, c_banner_text.
  destruct (on_terminal s); [|now split].
  rewrite app_nil_l, through_last_newline_line. now split.
Qed.

(** What server.cpp leaves on a stream with an empty buffer. *)
Lemma cpp_says_empty_buffer s :
  pending s = [] ->
  flushed (cpp_says s) = flushed s ++ lit "C++ server listening on port 8080" ++ [LF] /\
  pending (cpp_says s) = [].
Proof.
  intros Hp. unfold cpp_says. rewrite !stream_put_put, cpp_banner_text.
  destruct (stream_flush_put
              (lit "C++ server listening on port 8080" ++ [LF]) s)
    as (-> & -> & _).
  now rewrite Hp.
Qed.

End Streams.

(** ** Runs compared *)

Section Runs.

Lemma response_for_size r now resp :
  response_for r now = Done resp ->
  77 <= zlen resp <= 112 /\ no_nul resp = true.
Proof.
  destruct r; cbn [response_for].
  - destruct (gmtime now) as [t|] eqn:Ht; [|discriminate]. intros [= <-].
    split; [|exact (health_response_no_nul _ (iso8601_no_nul _ _ Ht))].
    unfold zlen. rewrite health_response_length.
    pose proof (iso8601_length _ _ Ht). lia.
  - intros [= <-]. split; [|reflexivity]. vm_compute. split; discriminate.
Qed.


Lemma listening_transcript says su p :
  transcript (listening says su p) = (says (stdout p), stderr p, closed p).
Proof. unfold listening. now destruct (su_setsockopt su). Qed.

Lemma first_failure_with_setsockopt r su :
  first_failure (with_setsockopt r su) = first_failure su.
Proof. reflexivity. Qed.

(** A run of the loop from two states with the same transcript. *)
Lemma c_accept_loop_transcript evs p q :
  transcript p = transcript q ->
  match ServerC.accept_loop evs p, ServerC.accept_loop evs q with
  | Waiting p', Waiting q' => transcript p' = transcript q'
  | Killed s1 p', Killed s2 q' => s1 = s2 /\ transcript p' = transcript q'
  | Undefined f1, Undefined f2 => f1 = f2
  | _, _ => False
  end.
Proof.
  unfold transcript. intros [= Ho He Hc].
  destruct (served evs) as [l|s|f] eqn:Hs.
  - destruct (c_accept_loop_serves evs p l Hs) as (p' & -> & Hc1 & Ho1 & He1).
    destruct (c_accept_loop_serves evs q l Hs) as (q' & -> & Hc2 & Ho2 & He2).
    congruence.
  - destruct (c_accept_loop_broken evs p s Hs)
      as (l1 & p' & Hl1 & -> & Hc1 & Ho1 & He1).
    destruct (c_accept_loop_broken evs q s Hs)
      as (l2 & q' & Hl2 & -> & Hc2 & Ho2 & He2).
    split; [reflexivity|]. congruence.
  - now rewrite !(c_accept_loop_crash evs _ f Hs).
Qed.

Lemma cpp_accept_loop_transcript evs p q :
  transcript p = transcript q ->
  match ServerCpp.accept_loop evs p, ServerCpp.accept_loop evs q with
  | Waiting p', Waiting q' => transcript p' = transcript q'
  | Killed s1 p', Killed s2 q' => s1 = s2 /\ transcript p' = transcript q'
  | Undefined f1, Undefined f2 => f1 = f2
  | _, _ => False
  end.
Proof.
  unfold transcript. intros [= Ho He Hc].
  destruct (served evs) as [l|s|f] eqn:Hs.
  - destruct (cpp_accept_loop_serves evs p l Hs) as (p' & -> & Hc1 & Ho1 & He1).
    destruct (cpp_accept_loop_serves evs q l Hs) as (q' & -> & Hc2 & Ho2 & He2).
    congruence.
  - destruct (cpp_accept_loop_broken evs p s Hs)
      as (l1 & p' & Hl1 & -> & Hc1 & Ho1 & He1).
    destruct (cpp_accept_loop_broken evs q s Hs)
      as (l2 & q' & Hl2 & -> & Hc2 & Ho2 & He2).
    split; [reflexivity|]. congruence.
  - now rewrite !(cpp_accept_loop_crash evs _ f Hs).
Qed.

End Runs.

(** * The claims *)

(** C1, as stated, fails: the bytes [hidden_probe], a NUL byte followed by
    [GET /health HTTP/1.1], contain [GET /health], yet both handlers answer
    them with the default response and not with the health response. *)
Lemma probe_behind_nul_not_health :
  read_error (client hidden_probe_run) = None /\
  contains health_probe (received hidden_probe_run) /\
  ServerC.handle_request hidden_probe_run
    = Return tt (answered default_response hidden_probe_run) /\
  ServerCpp.handle_request hidden_probe_run
    = Return tt (answered default_response hidden_probe_run) /\
  ServerC.handle_request hidden_probe_run
    <> respond Health hidden_probe_run /\
  ServerCpp.handle_request hidden_probe_run
    <> respond Health hidden_probe_run.
Proof.
  split; [reflexivity|]. split.
  { exists [NUL], (lit " HTTP/1.1"). reflexivity. }
  split; [vm_compute; reflexivity|]. split; [vm_compute; reflexivity|].
  split; intros H; vm_compute in H; discriminate H.
Qed.

(** C1, amended: whenever the read succeeds, each handler takes the health
    route if and only if the bytes read, up to their first NUL byte, contain
    [GET /health]; on all other bytes it takes the default route. *)
Theorem classification_by_terminated_request (p : proc) :
  read_error (client p) = None ->
  (ServerC.handle_request p = respond Health p
     <-> contains health_probe (until_nul (received p))) /\
  (ServerCpp.handle_request p = respond Health p
     <-> contains health_probe (until_nul (received p))) /\
  (~ contains health_probe (until_nul (received p)) ->
   ServerC.handle_request p = respond Default p /\
   ServerCpp.handle_request p = respond Default p).
Proof.
  intros Hr.
  rewrite c_handle_request_readable, cpp_handle_request_readable by exact Hr.
  rewrite <- classify_default, <- classify_health.
  split; [|split].
  - split; [apply respond_route_inj | now intros ->].
  - split; [apply respond_route_inj | now intros ->].
  - now intros ->.
Qed.

Lemma classification_by_terminated_request_witness :
  read_error (client health_run) = None /\
  contains health_probe (until_nul (received health_run)) /\
  ServerC.handle_request health_run
    = respond Health health_run /\
  ServerCpp.handle_request health_run
    = respond Health health_run.
Proof.
  assert (Hr : read_error (client health_run) = None)
    by reflexivity.
  assert (Hc : contains health_probe
                 (until_nul (received health_run))).
  { exists [], (lit " HTTP/1.1" ++ CRLF ++ lit "Host: x" ++ CRLF ++ CRLF). reflexivity. }
  destruct (classification_by_terminated_request _ Hr) as (Hc1 & Hc2 & _).
  split; [exact Hr|]. split; [exact Hc|].
  split; [now apply Hc1 | now apply Hc2].
Defined.

(** C2, as stated, fails: on a peer that closed without sending anything
    the read returns 0, and both handlers go on to write the default
    response. *)
Lemma empty_read_is_answered :
  read_error (client silent_run) = None /\
  received silent_run = [] /\
  ServerC.handle_request silent_run
    = Return tt (answered default_response silent_run) /\
  ServerCpp.handle_request silent_run
    = Return tt (answered default_response silent_run) /\
  ~ (exists p', ServerC.handle_request silent_run = Return tt p' /\
                outbox (client p') = outbox (client silent_run)) /\
  ~ (exists p', ServerCpp.handle_request silent_run = Return tt p' /\
                outbox (client p') = outbox (client silent_run)).
Proof.
  split; [reflexivity|]. split; [reflexivity|].
  split; [vm_compute; reflexivity|]. split; [vm_compute; reflexivity|].
  split; intros (p' & H & Hout); vm_compute in H; injection H as <-;
    discriminate Hout.
Qed.

(** C2, amended: when the read returns zero bytes, each handler stays
    within its buffer and takes the default route: it calls [write] with
    the default response and ends as that call does, returning unless the
    pipe is broken. However it ends, the default response has been passed
    to [write]. *)
Theorem empty_read_default_response (p : proc) :
  read_error (client p) = None -> received p = [] ->
  ServerC.handle_request p = delivery default_response p /\
  ServerCpp.handle_request p = delivery default_response p /\
  match delivery default_response p with
  | Return _ p' | Killed _ p' =>
      outbox (client p') = outbox (client p) ++ default_response
  | _ => False
  end.
Proof.
  intros Hr He.
  rewrite c_handle_request_readable, cpp_handle_request_readable by exact Hr.
  rewrite He. split; [reflexivity|]. split; [reflexivity|].
  unfold delivery. now destruct (write_answer (client p)).
Qed.

Lemma empty_read_default_response_witness :
  read_error (client silent_run) = None /\
  received silent_run = [] /\
  ServerC.handle_request silent_run = delivery default_response silent_run /\
  ServerCpp.handle_request silent_run = delivery default_response silent_run /\
  match delivery default_response silent_run with
  | Return _ p' | Killed _ p' =>
      outbox (client p') = outbox (client silent_run) ++ default_response
  | _ => False
  end.
Proof.
  split; [reflexivity|]. split; [reflexivity|].
  apply (empty_read_default_response silent_run); reflexivity.
Defined.

(** C3, as stated, fails: at the first second of the year 10000 the
    timestamp both handlers put in the health response has a year of five
    digits and is not of the shape [YYYY-MM-DDTHH:MM:SSZ]. *)
Lemma health_timestamp_past_9999 :
  read_error (client year_10000_run) = None /\
  classify (received year_10000_run) = Health /\
  ServerC.handle_request year_10000_run
    = Return tt (answered (health_response (lit "10000-01-01T00:00:00Z"))
                   year_10000_run) /\
  ServerCpp.handle_request year_10000_run
    = Return tt (answered (health_response (lit "10000-01-01T00:00:00Z"))
                   year_10000_run) /\
  matches timestamp_pattern (lit "10000-01-01T00:00:00Z") = false.
Proof.
  split; [reflexivity|]. split; [reflexivity|].
  split; [vm_compute; reflexivity|]. split; [vm_compute; reflexivity|].
  reflexivity.
Qed.

(** C3, amended: on bytes that take the health route, with a clock whose
    UTC year has four digits, each handler calls [write] with the status
    line [HTTP/1.1 200 OK], the header [Content-Type: application/json], an
    empty line and the JSON body of [health_body] (status ok, then the
    timestamp) with a newline; the timestamp is the clock reading broken
    down by [gmtime] and has the shape [YYYY-MM-DDTHH:MM:SSZ]. *)
Theorem health_route_response (p : proc) :
  read_error (client p) = None ->
  classify (received p) = Health ->
  four_digit_year (clock p) ->
  exists t,
    gmtime (clock p) = Some t /\
    matches timestamp_pattern (iso8601 t) = true /\
    ServerC.handle_request p
    = delivery (http_response (lit "HTTP/1.1 200 OK")
                  [lit "Content-Type: application/json"]
                  (health_body (iso8601 t))) p /\
    ServerCpp.handle_request p
    = delivery (http_response (lit "HTTP/1.1 200 OK")
                  [lit "Content-Type: application/json"]
                  (health_body (iso8601 t))) p.
Proof.
  intros Hr Hc Hy.
  destruct (gmtime_four_digit_year _ Hy) as (t & Ht & Hyear).
  exists t. split; [exact Ht|]. split; [exact (iso8601_matches _ _ Ht Hyear)|].
  rewrite c_handle_request_readable, cpp_handle_request_readable by exact Hr.
  rewrite Hc. unfold respond, response_for. rewrite Ht. split; reflexivity.
Qed.

Lemma health_route_response_witness :
  read_error (client health_run) = None /\
  classify (received health_run) = Health /\
  four_digit_year (clock health_run) /\
  exists t,
    gmtime (clock health_run) = Some t /\
    matches timestamp_pattern (iso8601 t) = true /\
    ServerC.handle_request health_run
    = delivery (http_response (lit "HTTP/1.1 200 OK")
                  [lit "Content-Type: application/json"]
                  (health_body (iso8601 t))) health_run /\
    ServerCpp.handle_request health_run
    = delivery (http_response (lit "HTTP/1.1 200 OK")
                  [lit "Content-Type: application/json"]
                  (health_body (iso8601 t))) health_run.
Proof.
  assert (Hy : four_digit_year (clock health_run))
    by (unfold four_digit_year, health_run, new_year_2024; simpl; lia).
  split; [reflexivity|]. split; [reflexivity|]. split; [exact Hy|].
  apply (health_route_response health_run);
    [reflexivity | reflexivity | exact Hy].
Defined.

(** C4: on bytes that do not contain [GET /health], each handler calls
    [write] with the status line [HTTP/1.1 200 OK], the header
    [Content-Type: text/plain], an empty line and the body
    [Hello from agentkernel sandbox!] with a newline. *)
Theorem default_route_response (p : proc) :
  read_error (client p) = None ->
  ~ contains health_probe (received p) ->
  ServerC.handle_request p
  = delivery (http_response (lit "HTTP/1.1 200 OK")
                [lit "Content-Type: text/plain"]
                (lit "Hello from agentkernel sandbox!" ++ [LF])) p /\
  ServerCpp.handle_request p
  = delivery (http_response (lit "HTTP/1.1 200 OK")
                [lit "Content-Type: text/plain"]
                (lit "Hello from agentkernel sandbox!" ++ [LF])) p.
Proof.
  intros Hr Hn.
  rewrite c_handle_request_readable, cpp_handle_request_readable by exact Hr.
  replace (classify (received p)) with Default; [split; reflexivity|].
  symmetry. apply classify_default. intros H. now apply Hn, contains_until_nul.
Qed.

Lemma default_route_response_witness :
  read_error (client root_run) = None /\
  ~ contains health_probe (received root_run) /\
  ServerC.handle_request root_run
  = delivery (http_response (lit "HTTP/1.1 200 OK")
                [lit "Content-Type: text/plain"]
                (lit "Hello from agentkernel sandbox!" ++ [LF])) root_run /\
  ServerCpp.handle_request root_run
  = delivery (http_response (lit "HTTP/1.1 200 OK")
                [lit "Content-Type: text/plain"]
                (lit "Hello from agentkernel sandbox!" ++ [LF])) root_run.
Proof.
  assert (Hn : ~ contains health_probe
                 (received root_run))
    by (apply not_contains_by_strstr; reflexivity).
  split; [reflexivity|]. split; [exact Hn|].
  apply (default_route_response root_run);
    [reflexivity | exact Hn].
Defined.

(** C5: when the read fails, each handler reports it on standard error and
    returns with the connection as it was, no byte written; its caller, the
    accept loop, closes the connection and goes on with the next [accept]. *)
Theorem read_error_reported (p : proc) (e : Z) :
  read_error (client p) = Some e ->
  (exists p', ServerC.handle_request p = Return tt p' /\
              client p' = client p /\ outbox (client p') = outbox (client p) /\
              stderr p' = stderr p ++ [Perror "read" e]) /\
  (exists p', ServerCpp.handle_request p = Return tt p' /\
              client p' = client p /\ outbox (client p') = outbox (client p) /\
              stderr p' = stderr p ++ [Cerr "Error reading from socket"]) /\
  (forall q fd now stack evs,
      ServerC.accept_loop (Incoming fd (client p) now stack :: evs) q
      = ServerC.accept_loop evs
          (mk_proc e now stack (stdout q) (stderr q ++ [Perror "read" e])
                   (client p) (closed q ++ [client p])) /\
      ServerCpp.accept_loop (Incoming fd (client p) now stack :: evs) q
      = ServerCpp.accept_loop evs
          (mk_proc e now stack (stdout q)
                   (stderr q ++ [Cerr "Error reading from socket"])
                   (client p) (closed q ++ [client p]))).
Proof.
  intros Hr. split; [|split].
  - rewrite (c_handle_request_read_error _ _ Hr). eexists.
    split; [reflexivity|]. now cbn.
  - rewrite (cpp_handle_request_read_error _ _ Hr). eexists.
    split; [reflexivity|]. now cbn.
  - intros q fd now stack evs.
    rewrite c_accept_incoming, cpp_accept_incoming. unfold bind.
    rewrite (c_handle_request_read_error (entered (client p) now stack q) e)
      by exact Hr.
    rewrite (cpp_handle_request_read_error (entered (client p) now stack q) e)
      by exact Hr.
    split; reflexivity.
Qed.

Lemma read_error_reported_witness :
  read_error (client reset_run) = Some 104 /\
  exists p', ServerC.handle_request reset_run = Return tt p' /\
             client p' = client reset_run /\
             outbox (client p') = outbox (client reset_run) /\
             stderr p' = stderr reset_run ++ [Perror "read" 104].
Proof.
  split; [reflexivity|].
  apply (read_error_reported reset_run 104). reflexivity.
Defined.

(** C6: the single [read] of a handler asks for [BUFFER_SIZE - 1] bytes of
    the [BUFFER_SIZE] = 4096 the buffer has; it returns -1, or a count
    between 0 and 4095 that is the index at which storing the terminator
    is inside the buffer. A handler, whether it returns or is ended in its
    [write], takes at most 4095 bytes off the connection, what lies beyond
    stays there, and it never leaves the bounds of an array. *)
Theorem read_within_buffer (p : proc) :
  ServerCpp.BUFFER_SIZE = ServerC.BUFFER_SIZE /\
  (exists n buffer p',
      read (uninit (junk p "buffer") ServerC.BUFFER_SIZE) (ServerC.BUFFER_SIZE - 1) p
      = Return (n, buffer) p' /\
      zlen buffer = 4096 /\
      (n = -1 \/
       (0 <= n <= 4095 /\
        inbox (client p) = take (Z.to_nat n) buffer ++ inbox (client p') /\
        exists buffer', store buffer n NUL = Done buffer'))) /\
  match ServerC.handle_request p, ServerCpp.handle_request p with
  | Return _ p1, Return _ p2 | Killed _ p1, Killed _ p2 =>
      exists taken, zlen taken <= 4095 /\
                    inbox (client p) = taken ++ inbox (client p1) /\
                    inbox (client p) = taken ++ inbox (client p2)
  | Undefined f1, Undefined f2 => f1 <> OutOfBounds /\ f2 <> OutOfBounds
  | _, _ => False
  end.
Proof.
  split; [reflexivity|]. split.
  - unfold ServerC.BUFFER_SIZE. change (4096 - 1) with 4095.
    destruct (read_error (client p)) as [e|] eqn:Hr.
    + unfold read. rewrite Hr. do 3 eexists. split; [reflexivity|].
      split; [|now left]. unfold zlen. rewrite uninit_length. lia.
    + rewrite (read_ok _ _ _ Hr) by (unfold zlen; rewrite uninit_length; lia).
      do 3 eexists. split; [reflexivity|].
      assert (Hlen : (length (received p) < length (uninit (junk p "buffer") 4096))%nat)
        by (unfold received; rewrite uninit_length, length_take; lia).
      fold (received p). split.
      { unfold zlen.
        destruct (blit_app (received p) (uninit (junk p "buffer") 4096)) as [_ ->];
          [lia|].
        rewrite uninit_length. lia. }
      right. split; [unfold zlen, received; rewrite length_take; lia|]. split.
      * cbn. unfold blit, zlen. rewrite Nat2Z.id, take_app_length.
        unfold received. now rewrite take_drop.
      * eexists. now apply store_terminator.
  - destruct (read_error (client p)) as [e|] eqn:Hr.
    + rewrite (c_handle_request_read_error _ _ Hr),
        (cpp_handle_request_read_error _ _ Hr).
      exists []. cbn. split; [unfold zlen; simpl; lia | auto].
    + rewrite c_handle_request_readable, cpp_handle_request_readable by exact Hr.
      unfold respond, response_for, delivery.
      destruct (classify (received p)); [destruct (gmtime (clock p))|].
      2:{ split; discriminate. }
      all: destruct (write_answer (client p));
        exists (received p); cbn; unfold zlen, received;
        rewrite length_take, take_drop; split; try lia; auto.
Qed.

(** C7: for every state of the connection and of the clock the handler of
    server.c and the handler of server.cpp leave the connection in the same
    state, so they write the same bytes; when the read succeeds they take
    the same route and their outcomes are equal. *)
Theorem handlers_agree (p : proc) :
  same_response (ServerC.handle_request p) (ServerCpp.handle_request p) /\
  (read_error (client p) = None ->
   ServerC.handle_request p = ServerCpp.handle_request p /\
   ServerC.handle_request p = respond (classify (received p)) p /\
   ServerCpp.handle_request p = respond (classify (received p)) p).
Proof.
  split.
  - destruct (read_error (client p)) as [e|] eqn:Hr.
    + now rewrite (c_handle_request_read_error _ _ Hr),
        (cpp_handle_request_read_error _ _ Hr).
    + rewrite c_handle_request_readable, cpp_handle_request_readable by exact Hr.
      unfold respond, delivery. destruct (response_for _ _); [|reflexivity].
      now destruct (write_answer (client p)).
  - intros Hr.
    rewrite c_handle_request_readable, cpp_handle_request_readable by exact Hr.
    auto.
Qed.

Lemma handlers_agree_witness :
  read_error (client health_run) = None /\
  ServerC.handle_request health_run
  = ServerCpp.handle_request health_run /\
  ServerC.handle_request health_run
  = respond (classify (received health_run))
      health_run /\
  ServerCpp.handle_request health_run
  = respond (classify (received health_run))
      health_run.
Proof.
  split; [reflexivity|].
  apply (handlers_agree health_run). reflexivity.
Defined.

(** C8: two runs of a handler that read the same bytes, whatever the rest
    of their payloads, stacks, clocks and earlier output, take the same
    route; on the default route they call [write] with the same response,
    on the health route with responses that differ in the timestamp only,
    and end as that call does. And the connections
    the accept loop has closed are those that arrived, each as [serve]
    leaves it from its own bytes and clock reading alone. *)
Theorem handling_is_deterministic :
  (forall p1 p2 : proc,
      read_error (client p1) = None -> read_error (client p2) = None ->
      received p1 = received p2 ->
      exists r,
        ServerC.handle_request p1 = respond r p1 /\
        ServerC.handle_request p2 = respond r p2 /\
        ServerCpp.handle_request p1 = respond r p1 /\
        ServerCpp.handle_request p2 = respond r p2 /\
        match r with
        | Default =>
            respond r p1 = delivery default_response p1 /\
            respond r p2 = delivery default_response p2
        | Health =>
            forall t1 t2,
              gmtime (clock p1) = Some t1 -> gmtime (clock p2) = Some t2 ->
              respond r p1 = delivery (health_response (iso8601 t1)) p1 /\
              respond r p2 = delivery (health_response (iso8601 t2)) p2
        end) /\
  (forall evs q q',
      ServerC.accept_loop evs q = Waiting q' \/
      ServerCpp.accept_loop evs q = Waiting q' ->
      exists l, served evs = Closed l /\ closed q' = closed q ++ l /\
                Forall2 (fun cn c' => serve cn.1 cn.2 = Closed c') (connections evs) l).
Proof.
  split.
  - intros p1 p2 Hr1 Hr2 Heq. exists (classify (received p1)).
    rewrite !c_handle_request_readable, !cpp_handle_request_readable by assumption.
    rewrite <- Heq. repeat (split; [reflexivity|]).
    destruct (classify (received p1)); [|split; reflexivity].
    intros t1 t2 H1 H2. unfold respond, response_for. now rewrite H1, H2.
  - intros evs q q' [H|H];
      [apply c_accept_loop_waits in H | apply cpp_accept_loop_waits in H];
      destruct H as (l & Hs & Hc & _); exists l;
      (split; [exact Hs|]); (split; [exact Hc|]); now apply served_each.
Qed.

Lemma handling_is_deterministic_witness :
  read_error (client long_run) = None /\
  read_error (client cut_run) = None /\
  received long_run
    = received cut_run /\
  exists r,
    ServerC.handle_request long_run
      = respond r long_run /\
    ServerC.handle_request cut_run
      = respond r cut_run.
Proof.
  assert (Heq : received long_run
                = received cut_run)
    by (vm_compute; reflexivity).
  split; [reflexivity|]. split; [reflexivity|]. split; [exact Heq|].
  destruct (proj1 handling_is_deterministic
              long_run
              cut_run
              eq_refl eq_refl Heq) as (r & H1 & H2 & _).
  exists r. split; assumption.
Defined.




(** C10: the process exits exactly when [socket], [bind] or [listen] fails
    at startup, and then with status 1 and one line on standard error that
    names the call; nothing else makes it exit. *)
Theorem exit_only_on_startup_failure
    (su : startup) (evs : list accept_event) (p : proc) :
  (forall code,
      exit_status (ServerC.main su evs p) = Some code <->
      code = 1 /\
      (fails (su_socket su) \/ fails (su_bind su) \/ fails (su_listen su))) /\
  (forall code,
      exit_status (ServerCpp.main su evs p) = Some code <->
      code = 1 /\
      (fails (su_socket su) \/ fails (su_bind su) \/ fails (su_listen su))) /\
  (forall call e,
      first_failure su = Some (call, e) ->
      exists p1 p2,
        ServerC.main su evs p = Exited 1 p1 /\
        stderr p1 = stderr p ++ [Perror (c_prefix call) e] /\
        ServerCpp.main su evs p = Return 1 p2 /\
        stderr p2 = stderr p ++ [Cerr (cpp_message call)]).
Proof.
  assert (Hff : first_failure su <> None <->
                fails (su_socket su) \/ fails (su_bind su) \/ fails (su_listen su)).
  { unfold first_failure, fails.
    destruct (su_socket su), (su_bind su), (su_listen su); split;
      try congruence; eauto;
      intros [[e H]|[[e H]|[e H]]]; discriminate. }
  setoid_rewrite <- Hff. clear Hff.
  destruct (first_failure su) as [[call e]|] eqn:Hf.
  - destruct (c_main_fails su evs p call e Hf) as (p1 & H1 & He1 & _).
    destruct (cpp_main_fails su evs p call e Hf) as (p2 & H2 & He2 & _).
    rewrite H1, H2. cbn [exit_status].
    split; [|split].
    + intros code. split; [intros [= <-]; now split | now intros [-> _]].
    + intros code. split; [intros [= <-]; now split | now intros [-> _]].
    + intros call' e' [= <- <-]. now exists p1, p2.
  - rewrite (c_main_no_exit _ evs p Hf), (cpp_main_no_exit _ evs p Hf).
    split; [|split].
    + intros code. split; [discriminate | now intros [_ H]].
    + intros code. split; [discriminate | now intros [_ H]].
    + discriminate.
Qed.

Lemma exit_only_on_startup_failure_witness :
  first_failure port_taken = Some (Bind, 98) /\
  exists p1 p2,
    ServerC.main port_taken two_peers boot = Exited 1 p1 /\
    stderr p1 = stderr boot ++ [Perror (c_prefix Bind) 98] /\
    ServerCpp.main port_taken two_peers boot = Return 1 p2 /\
    stderr p2 = stderr boot ++ [Cerr (cpp_message Bind)].
Proof.
  split; [reflexivity|].
  apply (exit_only_on_startup_failure port_taken two_peers boot). reflexivity.
Defined.

(** * Further properties of the code *)

(** X1: for a clock whose UTC year has four digits, [get_timestamp] returns
    a timestamp of the shape [YYYY-MM-DDTHH:MM:SSZ] that reads back as the
    clock reading, and leaves the process as it was. *)
Theorem get_timestamp_reads_clock (p : proc) :
  four_digit_year (clock p) ->
  exists ts,
    ServerCpp.get_timestamp p = Return ts p /\
    matches timestamp_pattern ts = true /\
    parse_timestamp ts = Some (clock p).
Proof.
  intros Hy. destruct (gmtime_four_digit_year _ Hy) as (t & Ht & Hyear).
  exists (iso8601 t). split; [|split].
  - unfold ServerCpp.get_timestamp, bind, time. rewrite Ht. reflexivity.
  - exact (iso8601_matches _ _ Ht Hyear).
  - exact (parse_iso8601 _ _ Hy Ht).
Qed.

Lemma get_timestamp_reads_clock_witness :
  four_digit_year (clock health_run) /\
  exists ts,
    ServerCpp.get_timestamp health_run = Return ts health_run /\
    matches timestamp_pattern ts = true /\
    parse_timestamp ts = Some (clock health_run).
Proof.
  assert (Hy : four_digit_year (clock health_run))
    by (unfold four_digit_year, health_run, new_year_2024; simpl; lia).
  split; [exact Hy|]. exact (get_timestamp_reads_clock health_run Hy).
Defined.

(** X2: the timestamp in the health response of either handler reads back
    as the clock reading of the moment, to the second, for a clock whose UTC
    year has four digits. *)
Theorem health_timestamp_round_trip (p : proc) :
  read_error (client p) = None ->
  classify (received p) = Health ->
  four_digit_year (clock p) ->
  exists ts,
    parse_timestamp ts = Some (clock p) /\
    ServerC.handle_request p = delivery (health_response ts) p /\
    ServerCpp.handle_request p = delivery (health_response ts) p.
Proof.
  intros Hr Hc Hy. destruct (gmtime_four_digit_year _ Hy) as (t & Ht & _).
  exists (iso8601 t). split; [exact (parse_iso8601 _ _ Hy Ht)|].
  rewrite c_handle_request_readable, cpp_handle_request_readable by exact Hr.
  rewrite Hc. unfold respond, response_for. rewrite Ht. split; reflexivity.
Qed.

Lemma health_timestamp_round_trip_witness :
  read_error (client health_run) = None /\
  classify (received health_run) = Health /\
  four_digit_year (clock health_run) /\
  exists ts,
    parse_timestamp ts = Some (clock health_run) /\
    ServerC.handle_request health_run = delivery (health_response ts) health_run /\
    ServerCpp.handle_request health_run = delivery (health_response ts) health_run.
Proof.
  assert (Hy : four_digit_year (clock health_run))
    by (unfold four_digit_year, health_run, new_year_2024; simpl; lia).
  split; [reflexivity|]. split; [reflexivity|]. split; [exact Hy|].
  exact (health_timestamp_round_trip health_run eq_refl eq_refl Hy).
Defined.

(** X3: whatever time [gmtime] breaks down, the 64-byte [timestamp] array of
    server.c holds its expansion, at most 27 bytes and a terminator, and the
    string in it is the one [put_time] streams in server.cpp. *)
Theorem timestamp_array_suffices (p : proc) (t : tm) :
  gmtime (clock p) = Some t ->
  exists n mem,
    strftime (uninit (junk p "timestamp") 64) 64 t = (n, Some mem) /\
    0 < n <= 27 /\
    zlen mem = 64 /\
    c_str mem = Done (ServerCpp.put_time t).
Proof.
  intros Ht. unfold strftime, ServerCpp.put_time.
  pose proof (iso8601_length _ _ Ht) as Hlen.
  pose proof (iso8601_no_nul _ _ Ht) as Hnn.
  replace (_ <=? _) with true by (symmetry; apply Z.leb_le; unfold zlen; lia).
  do 2 eexists. split; [reflexivity|]. split; [|split].
  - pose proof (f_equal length (iso8601_gmtime _ _ Ht)) as E.
    rewrite length_app in E. simpl in E. unfold zlen. lia.
  - unfold zlen, blit.
    rewrite !length_app, length_drop, uninit_length, ?length_app. simpl. lia.
  - unfold blit. rewrite <- app_assoc. simpl.
    rewrite c_str_terminated. f_equal. now apply until_nul_no_nul.
Qed.

Lemma timestamp_array_suffices_witness :
  exists t,
    gmtime (clock health_run) = Some t /\
    exists n mem,
      strftime (uninit (junk health_run "timestamp") 64) 64 t = (n, Some mem) /\
      0 < n <= 27 /\
      zlen mem = 64 /\
      c_str mem = Done (ServerCpp.put_time t).
Proof.
  eexists. split; [reflexivity|].
  apply (timestamp_array_suffices health_run). reflexivity.
Defined.


(** X5: a handler that returns has printed nothing on standard output and
    closed nothing; what was passed to [write] earlier is still there,
    followed by what this handler passed, and the unread input is an end of
    the old one. When the read succeeded, nothing went to standard error
    either. *)
Theorem handler_touches_connection_only (p p' : proc) :
  ServerC.handle_request p = Return tt p' \/
  ServerCpp.handle_request p = Return tt p' ->
  stdout p' = stdout p /\ closed p' = closed p /\
  (exists taken, inbox (client p) = taken ++ inbox (client p')) /\
  (exists resp, outbox (client p') = outbox (client p) ++ resp) /\
  (read_error (client p) = None -> stderr p' = stderr p).
Proof.
  destruct (read_error (client p)) as [e|] eqn:Hr.
  - rewrite (c_handle_request_read_error _ _ Hr),
      (cpp_handle_request_read_error _ _ Hr).
    intros [[= <-]|[= <-]]; cbn; repeat split; try discriminate;
      try (now exists []); exists []; now rewrite app_nil_r.
  - rewrite c_handle_request_readable, cpp_handle_request_readable by exact Hr.
    unfold respond, delivery.
    destruct (response_for _ _) as [resp|f]; [|intros [H|H]; discriminate].
    destruct (write_answer (client p)) as [|e|];
      [| |intros [H|H]; discriminate]; intros H.
    + assert (Return tt (answered resp p) = Return tt p') as [= <-]
        by (destruct H; assumption).
      cbn. repeat split.
      * exists (received p). unfold received. now rewrite take_drop.
      * now exists resp.
    + assert (Return tt (set_errno e (answered resp p)) = Return tt p') as [= <-]
        by (destruct H; assumption).
      cbn. repeat split.
      * exists (received p). unfold received. now rewrite take_drop.
      * now exists resp.
Qed.

Lemma handler_touches_connection_only_witness :
  exists p',
    ServerC.handle_request health_run = Return tt p' /\
    stdout p' = stdout health_run /\ closed p' = closed health_run /\
    (exists taken, inbox (client health_run) = taken ++ inbox (client p')) /\
    (exists resp, outbox (client p') = outbox (client health_run) ++ resp) /\
    (read_error (client health_run) = None -> stderr p' = stderr health_run).
Proof.
  eexists. split; [vm_compute; reflexivity|].
  apply (handler_touches_connection_only health_run). left. vm_compute. reflexivity.
Defined.

(** X6: the response a handler writes after a successful read has between
    77 and 112 bytes and no NUL byte, so it fits the 4096-byte [response]
    array of server.c whole and [strlen] measures all of it. *)
Theorem response_fits_easily (p p' : proc) :
  read_error (client p) = None ->
  ServerC.handle_request p = Return tt p' \/
  ServerCpp.handle_request p = Return tt p' ->
  exists resp,
    outbox (client p') = outbox (client p) ++ resp /\
    77 <= zlen resp <= 112 /\ zlen resp < ServerC.BUFFER_SIZE /\
    no_nul resp = true.
Proof.
  intros Hr.
  rewrite c_handle_request_readable, cpp_handle_request_readable by exact Hr.
  unfold respond, delivery.
  destruct (response_for _ _) as [resp|f] eqn:E; [|intros [H|H]; discriminate].
  destruct (response_for_size _ _ _ E) as [Hs Hn].
  intros H. exists resp.
  assert (outbox (client p') = outbox (client p) ++ resp) as ->.
  { destruct (write_answer (client p));
      destruct H as [H|H]; try discriminate; injection H as <-; reflexivity. }
  unfold ServerC.BUFFER_SIZE. repeat split; try assumption; lia.
Qed.

Lemma response_fits_easily_witness :
  read_error (client root_run) = None /\
  exists p' resp,
    ServerC.handle_request root_run = Return tt p' /\
    outbox (client p') = outbox (client root_run) ++ resp /\
    77 <= zlen resp <= 112 /\ zlen resp < ServerC.BUFFER_SIZE /\
    no_nul resp = true.
Proof.
  split; [reflexivity|].
  assert (H : ServerC.handle_request root_run
              = Return tt (answered default_response root_run))
    by (vm_compute; reflexivity).
  destruct (response_fits_easily root_run _ eq_refl (or_introl H)) as (resp & Hresp).
  exists (answered default_response root_run), resp. split; [exact H | exact Hresp].
Defined.

(** X7: when [GET /health] lies within the first 4095 bytes that arrived
    and no NUL byte comes before it, both handlers take the health route,
    whatever precedes and follows it. *)
Theorem probe_within_limit_is_health (p : proc) (pre post : list byte) :
  read_error (client p) = None ->
  inbox (client p) = pre ++ health_probe ++ post ->
  no_nul pre = true ->
  zlen pre + zlen health_probe <= 4095 ->
  ServerC.handle_request p = respond Health p /\
  ServerCpp.handle_request p = respond Health p.
Proof.
  intros Hr Hin Hn Hlen.
  rewrite c_handle_request_readable, cpp_handle_request_readable by exact Hr.
  replace (classify (received p)) with Health; [split; reflexivity|].
  symmetry. apply classify_health. unfold received. rewrite Hin.
  rewrite app_assoc, take_app_ge
    by (unfold zlen in Hlen; rewrite length_app; lia).
  rewrite <- app_assoc, until_nul_app_no_nul by exact Hn.
  rewrite until_nul_app_no_nul by reflexivity.
  now exists pre, (until_nul (take (Z.to_nat 4095 - length (pre ++ health_probe)) post)).
Qed.

Lemma probe_within_limit_is_health_witness :
  read_error (client edge_run) = None /\
  inbox (client edge_run) = repeat x41 4084 ++ health_probe ++ lit " HTTP/1.1" /\
  no_nul (repeat x41 4084) = true /\
  zlen (repeat x41 4084) + zlen health_probe <= 4095 /\
  ServerC.handle_request edge_run = respond Health edge_run /\
  ServerCpp.handle_request edge_run = respond Health edge_run.
Proof.
  assert (Hn : no_nul (repeat x41 4084) = true) by (vm_compute; reflexivity).
  assert (Hl : zlen (repeat x41 4084) + zlen health_probe <= 4095)
    by (vm_compute; discriminate).
  split; [reflexivity|]. split; [reflexivity|]. split; [exact Hn|].
  split; [exact Hl|].
  exact (probe_within_limit_is_health edge_run (repeat x41 4084) (lit " HTTP/1.1")
           eq_refl eq_refl Hn Hl).
Defined.

(** X8: when [GET /health] reaches beyond the first 4095 bytes that
    arrived and does not occur before that, the single read cuts it: both
    handlers call [write] with the default response, and the bytes from the
    4096th on stay unread on the connection. *)
Theorem probe_cut_by_limit_is_default (p : proc) (pre post : list byte) :
  read_error (client p) = None ->
  inbox (client p) = pre ++ health_probe ++ post ->
  4095 < zlen pre + zlen health_probe ->
  ~ contains health_probe (pre ++ take 10 health_probe) ->
  ServerC.handle_request p = delivery default_response p /\
  ServerCpp.handle_request p = delivery default_response p /\
  inbox (client (answered default_response p))
    = drop (Z.to_nat 4095) (pre ++ health_probe ++ post).
Proof.
  intros Hr Hin Hlen Hn.
  rewrite c_handle_request_readable, cpp_handle_request_readable by exact Hr.
  replace (classify (received p)) with Default.
  { cbn. now rewrite Hin. }
  symmetry. apply classify_default. intros H. apply Hn.
  apply contains_until_nul in H. unfold received in H. rewrite Hin in H.
  rewrite <- (take_drop 10 health_probe), <- !app_assoc in H.
  rewrite (app_assoc pre), take_app_le in H.
  2:{ rewrite length_app, length_take. change (length health_probe) with 11%nat.
      unfold zlen in Hlen. change (length health_probe) with 11%nat in Hlen. lia. }
  now apply contains_take in H.
Qed.

Lemma probe_cut_by_limit_is_default_witness :
  read_error (client straddle_run) = None /\
  inbox (client straddle_run) = repeat x41 4090 ++ health_probe ++ lit " HTTP/1.1" /\
  4095 < zlen (repeat x41 4090) + zlen health_probe /\
  ~ contains health_probe (repeat x41 4090 ++ take 10 health_probe) /\
  ServerC.handle_request straddle_run = delivery default_response straddle_run /\
  ServerCpp.handle_request straddle_run = delivery default_response straddle_run /\
  inbox (client (answered default_response straddle_run))
    = drop (Z.to_nat 4095) (repeat x41 4090 ++ health_probe ++ lit " HTTP/1.1").
Proof.
  assert (Hl : 4095 < zlen (repeat x41 4090) + zlen health_probe)
    by (vm_compute; reflexivity).
  assert (Hn : ~ contains health_probe (repeat x41 4090 ++ take 10 health_probe))
    by (apply not_contains_by_strstr; vm_compute; reflexivity).
  split; [reflexivity|]. split; [reflexivity|]. split; [exact Hl|].
  split; [exact Hn|].
  exact (probe_cut_by_limit_is_default straddle_run (repeat x41 4090)
           (lit " HTTP/1.1") eq_refl eq_refl Hl Hn).
Defined.

(** X9: what [setsockopt] returns makes no difference: with any other
    answer to it, each program ends the same way, with the same lines on
    standard output and standard error and the same connections closed. *)
Theorem setsockopt_result_ignored
    (r : sysret) (su : startup) (evs : list accept_event) (p : proc) :
  same_run (ServerC.main su evs p) (ServerC.main (with_setsockopt r su) evs p) /\
  same_run (ServerCpp.main su evs p) (ServerCpp.main (with_setsockopt r su) evs p).
Proof.
  pose proof (first_failure_with_setsockopt r su) as Hff.
  destruct (first_failure su) as [[call e]|] eqn:Hf.
  - destruct (c_main_fails su evs p call e Hf) as (p1 & -> & He1 & Ho1 & Hc1).
    destruct (c_main_fails _ evs p call e Hff) as (p2 & -> & He2 & Ho2 & Hc2).
    destruct (cpp_main_fails su evs p call e Hf) as (p3 & -> & He3 & Ho3 & Hc3).
    destruct (cpp_main_fails _ evs p call e Hff) as (p4 & -> & He4 & Ho4 & Hc4).
    unfold same_run, transcript. repeat split; congruence.
  - rewrite !c_main_started, !cpp_main_started by assumption. unfold bind.
    split.
    + pose proof (c_accept_loop_transcript evs
                    (listening c_says su p)
                    (listening c_says (with_setsockopt r su) p)) as H.
      rewrite !listening_transcript in H. specialize (H eq_refl).
      destruct (ServerC.accept_loop evs (listening c_says su p)),
        (ServerC.accept_loop evs (listening c_says (with_setsockopt r su) p));
        try contradiction; exact H.
    + pose proof (cpp_accept_loop_transcript evs
                    (listening cpp_says su p)
                    (listening cpp_says (with_setsockopt r su) p)) as H.
      rewrite !listening_transcript in H. specialize (H eq_refl).
      destruct (ServerCpp.accept_loop evs (listening cpp_says su p)),
        (ServerCpp.accept_loop evs (listening cpp_says (with_setsockopt r su) p));
        try contradiction; exact H.
Qed.

(** X10: the line that announces the port is printed once, when [listen]
    has succeeded, and nothing else is printed on standard output; a startup
    that fails prints nothing there. In server.cpp [std::endl] sends the
    line off at once. In server.c nothing flushes the stream: the line goes
    out at once when standard output is a terminal, and otherwise stays in
    the buffer for as long as the process runs, also when a signal ends
    it. *)
Theorem banner_printed_once (su : startup) (evs : list accept_event) (p : proc) :
  pending (stdout p) = [] ->
  match ServerC.main su evs p with
  | Waiting p' | Killed _ p' =>
      first_failure su = None /\
      if on_terminal (stdout p)
      then flushed (stdout p')
           = flushed (stdout p) ++ lit "C server listening on port 8080" ++ [LF] /\
           pending (stdout p') = []
      else flushed (stdout p') = flushed (stdout p) /\
           pending (stdout p') = lit "C server listening on port 8080" ++ [LF]
  | Exited _ p' =>
      first_failure su <> None /\
      flushed (stdout p') = flushed (stdout p) /\ pending (stdout p') = []
  | Undefined _ => first_failure su = None
  | Return _ _ => False
  end /\
  match ServerCpp.main su evs p with
  | Waiting p' | Killed _ p' =>
      first_failure su = None /\
      flushed (stdout p')
      = flushed (stdout p) ++ lit "C++ server listening on port 8080" ++ [LF] /\
      pending (stdout p') = []
  | Return _ p' =>
      first_failure su <> None /\
      flushed (stdout p') = flushed (stdout p) /\ pending (stdout p') = []
  | Undefined _ => first_failure su = None
  | Exited _ _ => False
  end.
Proof.
  intros Hp.
  destruct (first_failure su) as [[call e]|] eqn:Hf.
  - destruct (c_main_fails su evs p call e Hf) as (p1 & -> & _ & Ho1 & _).
    destruct (cpp_main_fails su evs p call e Hf) as (p2 & -> & _ & Ho2 & _).
    rewrite Ho1, Ho2. cbn. rewrite Hp, app_nil_r. repeat split; discriminate.
  - rewrite c_main_started, cpp_main_started by assumption. unfold bind.
    assert (Hl : forall says, stdout (listening says su p) = says (stdout p))
      by (intros says; unfold listening; now destruct (su_setsockopt su)).
    pose proof (c_says_empty_buffer _ Hp) as Hc.
    pose proof (cpp_says_empty_buffer _ Hp) as Hcpp.
    destruct (served evs) as [l|s|f] eqn:Hs.
    + destruct (c_accept_loop_serves evs (listening c_says su p) l Hs)
        as (p1 & -> & _ & Ho1 & _).
      destruct (cpp_accept_loop_serves evs (listening cpp_says su p) l Hs)
        as (p2 & -> & _ & Ho2 & _).
      rewrite Ho1, Ho2, !Hl. auto.
    + destruct (c_accept_loop_broken evs (listening c_says su p) s Hs)
        as (l1 & p1 & _ & -> & _ & Ho1 & _).
      destruct (cpp_accept_loop_broken evs (listening cpp_says su p) s Hs)
        as (l2 & p2 & _ & -> & _ & Ho2 & _).
      rewrite Ho1, Ho2, !Hl. auto.
    + rewrite (c_accept_loop_crash evs _ f Hs), (cpp_accept_loop_crash evs _ f Hs).
      now split.
Qed.

Lemma banner_printed_once_witness :
  pending (stdout boot) = [] /\
  exists p1 p2,
    ServerC.main fair_startup two_peers boot = Waiting p1 /\
    flushed (stdout p1) = [] /\
    pending (stdout p1) = lit "C server listening on port 8080" ++ [LF] /\
    ServerCpp.main fair_startup two_peers boot = Waiting p2 /\
    flushed (stdout p2) = lit "C++ server listening on port 8080" ++ [LF] /\
    pending (stdout p2) = [].
Proof.
  split; [reflexivity|].
  pose proof (banner_printed_once fair_startup two_peers boot eq_refl) as H.
  assert (exists p1, ServerC.main fair_startup two_peers boot = Waiting p1)
    as [p1 H1] by (eexists; vm_compute; reflexivity).
  assert (exists p2, ServerCpp.main fair_startup two_peers boot = Waiting p2)
    as [p2 H2] by (eexists; vm_compute; reflexivity).
  rewrite H1, H2 in H. destruct H as [(_ & Hc1 & Hc2) (_ & Hd1 & Hd2)].
  exists p1, p2. repeat split; assumption.
Defined.

